(** * The constrained input editor of anagrama-cli

    A shallow embedding of [interactiveInput] (the raw-keystroke editor with
    its command palette) and of [isLetterAvailable], as written in the two
    revisions of the client's [index.ts]: the current one, which erases
    below the cursor with relative moves, and the earlier one kept under
    [anagrama-cli/src/index.ts], which saves and restores the cursor
    position.  The closure variables of [interactiveInput] become the fields
    of a record that every helper threads through; what the closure writes
    to the terminal, the calls of the [onUpdate] callback and the operations
    on [stdin] are logged, in order, in the field [effects].  A handler that
    throws (the [TypeError] of reading a letter outside the pool) returns
    [None].

    Strings are sequences of 8-bit character codes.  Case mapping acts on
    the ASCII letters, which is what [toUpperCase] and [toLowerCase] do on
    the code units below 128: the letter keys the editor accepts and the
    names of the command registry are all in that range.  The built-ins
    also map letters beyond it, which the embedding does not: where a
    Command-mode buffer is lower-cased or the scramble upper-cased, the
    properties are stated for text in that range ([Js.isAscii]).

    Around the editor the development embeds what [doPlay] does with its
    result, the letter tiles of [printGameHeader] that the [onUpdate]
    callback redraws, the statistics kept by [readStats], [writeStats] and
    [updateStats], and [normalizeBaseUrl]. *)

From Stdlib Require Import ZArith String Ascii Lia.
From stdpp Require Import base list strings.

Local Open Scope Z_scope.

(** ** Strings as the source uses them *)

Module Js.

Definition chr (n : nat) : string := String (ascii_of_nat n) "".

(** The character codes below 128, on which the case mappings below are
    those of [toUpperCase] and [toLowerCase]. *)
Definition isAsciiChar (c : ascii) : bool := (nat_of_ascii c <? 128)%nat.

Fixpoint isAscii (s : string) : bool :=
  match s with
  | EmptyString => true
  | String c r => isAsciiChar c && isAscii r
  end.

(** Some character of the string is one of A to Z. *)
Definition isUpperChar (c : ascii) : bool :=
  let n := nat_of_ascii c in ((65 <=? n) && (n <=? 90))%nat.

Fixpoint hasUpperCase (s : string) : bool :=
  match s with
  | EmptyString => false
  | String c r => isUpperChar c || hasUpperCase r
  end.

(** Case mapping of the ASCII letters; the other characters are left as
    they are.  On [isAscii] strings this is what [toUpperCase] and
    [toLowerCase] do.  The built-ins also map letters outside that range:
    a property about the mapping of text that can hold such characters (a
    Command-mode buffer, the scramble sent by the server) assumes
    [isAscii] of that text. *)
Definition toUpperCase_char (c : ascii) : ascii :=
  let n := nat_of_ascii c in
  if ((97 <=? n) && (n <=? 122))%nat then ascii_of_nat (n - 32) else c.

Definition toLowerCase_char (c : ascii) : ascii :=
  let n := nat_of_ascii c in
  if ((65 <=? n) && (n <=? 90))%nat then ascii_of_nat (n + 32) else c.

Fixpoint toUpperCase (s : string) : string :=
  match s with
  | EmptyString => EmptyString
  | String c r => String (toUpperCase_char c) (toUpperCase r)
  end.

Fixpoint toLowerCase (s : string) : string :=
  match s with
  | EmptyString => EmptyString
  | String c r => String (toLowerCase_char c) (toLowerCase r)
  end.

(** [s.startsWith(p)] *)
Definition startsWith (s p : string) : bool := String.prefix p s.

(** [s[s.length - 1]] on a non-empty [s] (the empty string stands for
    [undefined], which the editor never reads: the access is guarded by
    [input.length > 0]). *)
Fixpoint lastChar (s : string) : string :=
  match s with
  | EmptyString => EmptyString
  | String c EmptyString => String c EmptyString
  | String _ r => lastChar r
  end.

(** [s.slice(0, -1)] *)
Fixpoint sliceInit (s : string) : string :=
  match s with
  | EmptyString => EmptyString
  | String _ EmptyString => EmptyString
  | String c r => String c (sliceInit r)
  end.

(** [s.padEnd(n)] *)
Definition padEnd (n : nat) (s : string) : string :=
  s +:+ String.concat "" (replicate (n - String.length s) " ").

(** [/^[a-zA-Z]$/.test(s)] *)
Definition isAsciiLetter (c : ascii) : bool :=
  let n := nat_of_ascii c in
  (((65 <=? n) && (n <=? 90)) || ((97 <=? n) && (n <=? 122)))%nat.

Definition testLetter (s : string) : bool :=
  match s with
  | String c EmptyString => isAsciiLetter c
  | _ => false
  end.

(** A [Set<number>]: its elements in insertion order, which is the order
    [for ... of] visits them in. *)
Abbreviation NumSet := (list nat).

Definition has (i : nat) (s : NumSet) : bool := bool_decide (i ∈ s).
Definition add (i : nat) (s : NumSet) : NumSet := if has i s then s else s ++ [i].
Definition delete (i : nat) (s : NumSet) : NumSet := filter (λ j, j ≠ i) s.

End Js.

(** ** The command registry *)

Record command := { name : string; desc : string }.

Definition COMMANDS : list command :=
  [ {| name := "/help";    desc := "Show all commands" |};
    {| name := "/hint";    desc := "Get a hint" |};
    {| name := "/exit";    desc := "Return to menu" |};
    {| name := "/quit";    desc := "Exit the app" |};
    {| name := "/shuffle"; desc := "Shuffle the letters" |} ].

(** ** Effects *)

(** The [chalk] styles the editor applies to the text it writes. *)
Inductive style :=
| Plain
| WhiteBold         (* chalk.white.bold *)
| SelectedEntry     (* chalk.bgHex("#333333").white *)
| Gray              (* chalk.gray *)
| Dim.              (* chalk.dim *)

(** What the editor does to its environment: the control sequences and
    texts of [process.stdout.write] and [console.log], the [onUpdate]
    callback, and the [stdin] operations. *)
Inductive effect :=
| Newline                                  (* "\n" *)
| CarriageReturn                           (* "\r" *)
| EraseLine                                (* ESC [2K *)
| CursorUp (n : nat)                       (* ESC [nA *)
| CursorDown                               (* ESC [B *)
| SaveCursor                               (* ESC [s *)
| RestoreCursor                            (* ESC [u *)
| Text (st : style) (s : string)
| OnUpdate (input : string) (used : Js.NumSet)
| SetRawMode (b : bool)
| Resume
| SetEncoding (enc : string)
| AddListener
| RemoveListener.

(** ** The editor's state *)

(** The two revisions of the editor share the state machine of [handleKey]
    and differ in what they write: [Current] moves the cursor relatively
    ([clearBelow]) and has [renderMenu] erase the previous menu, [Legacy]
    (under [anagrama-cli/src/index.ts]) saves and restores the cursor
    position and leaves the erasure to [clearMenu]. *)
Inductive revision := Current | Legacy.

Record state := {
  input : string;
  isCommandMode : bool;
  selectedIndex : Z;
  filteredCommands : list command;
  menuVisible : bool;
  renderedMenuLines : nat;
  usedIndices : Js.NumSet;
  ctrlCShown : bool;
  (* [resolve] has been called with these values *)
  resolved : option (string * bool);
  (* log of effects, oldest first *)
  effects : list effect
}.

Definition set_input (x : string) (s : state) : state :=
  {| input := x; isCommandMode := isCommandMode s; selectedIndex := selectedIndex s;
     filteredCommands := filteredCommands s; menuVisible := menuVisible s;
     renderedMenuLines := renderedMenuLines s; usedIndices := usedIndices s;
     ctrlCShown := ctrlCShown s; resolved := resolved s; effects := effects s |}.

Definition set_isCommandMode (x : bool) (s : state) : state :=
  {| input := input s; isCommandMode := x; selectedIndex := selectedIndex s;
     filteredCommands := filteredCommands s; menuVisible := menuVisible s;
     renderedMenuLines := renderedMenuLines s; usedIndices := usedIndices s;
     ctrlCShown := ctrlCShown s; resolved := resolved s; effects := effects s |}.

Definition set_selectedIndex (x : Z) (s : state) : state :=
  {| input := input s; isCommandMode := isCommandMode s; selectedIndex := x;
     filteredCommands := filteredCommands s; menuVisible := menuVisible s;
     renderedMenuLines := renderedMenuLines s; usedIndices := usedIndices s;
     ctrlCShown := ctrlCShown s; resolved := resolved s; effects := effects s |}.

Definition set_filteredCommands (x : list command) (s : state) : state :=
  {| input := input s; isCommandMode := isCommandMode s; selectedIndex := selectedIndex s;
     filteredCommands := x; menuVisible := menuVisible s;
     renderedMenuLines := renderedMenuLines s; usedIndices := usedIndices s;
     ctrlCShown := ctrlCShown s; resolved := resolved s; effects := effects s |}.

Definition set_menuVisible (x : bool) (s : state) : state :=
  {| input := input s; isCommandMode := isCommandMode s; selectedIndex := selectedIndex s;
     filteredCommands := filteredCommands s; menuVisible := x;
     renderedMenuLines := renderedMenuLines s; usedIndices := usedIndices s;
     ctrlCShown := ctrlCShown s; resolved := resolved s; effects := effects s |}.

Definition set_renderedMenuLines (x : nat) (s : state) : state :=
  {| input := input s; isCommandMode := isCommandMode s; selectedIndex := selectedIndex s;
     filteredCommands := filteredCommands s; menuVisible := menuVisible s;
     renderedMenuLines := x; usedIndices := usedIndices s;
     ctrlCShown := ctrlCShown s; resolved := resolved s; effects := effects s |}.

Definition set_usedIndices (x : Js.NumSet) (s : state) : state :=
  {| input := input s; isCommandMode := isCommandMode s; selectedIndex := selectedIndex s;
     filteredCommands := filteredCommands s; menuVisible := menuVisible s;
     renderedMenuLines := renderedMenuLines s; usedIndices := x;
     ctrlCShown := ctrlCShown s; resolved := resolved s; effects := effects s |}.

Definition set_ctrlCShown (x : bool) (s : state) : state :=
  {| input := input s; isCommandMode := isCommandMode s; selectedIndex := selectedIndex s;
     filteredCommands := filteredCommands s; menuVisible := menuVisible s;
     renderedMenuLines := renderedMenuLines s; usedIndices := usedIndices s;
     ctrlCShown := x; resolved := resolved s; effects := effects s |}.

Definition set_resolved (x : option (string * bool)) (s : state) : state :=
  {| input := input s; isCommandMode := isCommandMode s; selectedIndex := selectedIndex s;
     filteredCommands := filteredCommands s; menuVisible := menuVisible s;
     renderedMenuLines := renderedMenuLines s; usedIndices := usedIndices s;
     ctrlCShown := ctrlCShown s; resolved := x; effects := effects s |}.

(** [emit es s]: the effects [es] happen, in order. *)
Definition emit (es : list effect) (s : state) : state :=
  {| input := input s; isCommandMode := isCommandMode s; selectedIndex := selectedIndex s;
     filteredCommands := filteredCommands s; menuVisible := menuVisible s;
     renderedMenuLines := renderedMenuLines s; usedIndices := usedIndices s;
     ctrlCShown := ctrlCShown s; resolved := resolved s; effects := effects s ++ es |}.

(** ** Pool tracker *)

(** The loop of [isLetterAvailable] from index [i] on, [pool] being what is
    left of the pool from [i]. *)
Fixpoint isLetterAvailable_from (i : nat) (upperLetter : string)
    (pool : list string) (usedIndices : Js.NumSet) : option nat :=
  match pool with
  | [] => None
  | p :: rest =>
      if negb (Js.has i usedIndices) && String.eqb (Js.toUpperCase p) upperLetter
      then Some i
      else isLetterAvailable_from (S i) upperLetter rest usedIndices
  end.

(** [isLetterAvailable(letter, pool, usedIndices)]; the result [-1] of the
    source is [None]. *)
Definition isLetterAvailable (letter : string) (pool : list string)
    (usedIndices : Js.NumSet) : option nat :=
  isLetterAvailable_from 0 (Js.toUpperCase letter) pool usedIndices.

(** The loop of the backspace branch over the consumed indices [todo], in
    insertion order: the first one whose pool letter is [upperChar].  The
    outer [None] is the [TypeError] of [pool[idx].toUpperCase()] at an index
    outside the pool. *)
Fixpoint findConsumed (pool : list string) (upperChar : string)
    (todo : list nat) : option (option nat) :=
  match todo with
  | [] => Some None
  | idx :: rest =>
      match pool !! idx with
      | None => None
      | Some p =>
          if String.eqb (Js.toUpperCase p) upperChar then Some (Some idx)
          else findConsumed pool upperChar rest
      end
  end.

(** The whole loop: the index found is deleted from the set. *)
Definition releaseLetter (pool : list string) (upperChar : string)
    (usedIndices : Js.NumSet) : option Js.NumSet :=
  match findConsumed pool upperChar usedIndices with
  | None => None
  | Some None => Some usedIndices
  | Some (Some idx) => Some (Js.delete idx usedIndices)
  end.

(** ** Overlay renderer *)

Definition getFilteredCommands (s : state) : list command :=
  if negb (isCommandMode s) then []
  else filter (λ c, Is_true (Js.startsWith (name c) (input s))) COMMANDS.

Definition renderInput (s : state) : state :=
  emit [CarriageReturn; EraseLine; Text WhiteBold "  › "; Text Plain (input s)] s.

(** [lines] times ["\n\x1b[2K"] *)
Definition eraseBelow (lines : nat) : list effect :=
  concat (replicate lines [Newline; EraseLine]).

(** [clearBelow] of the current revision *)
Definition clearBelow (lines : nat) (s : state) : state :=
  if decide (lines = 0%nat) then s
  else emit (eraseBelow lines ++ [CursorUp lines]) s.

(** [clearMenu] *)
Definition clearMenu (v : revision) (s : state) : state :=
  match v with
  | Current =>
      if decide (renderedMenuLines s = 0%nat) then s
      else
        let s := clearBelow (renderedMenuLines s) s in
        let s := set_menuVisible false s in
        set_renderedMenuLines 0 s
  | Legacy =>
      if negb (menuVisible s) || bool_decide (renderedMenuLines s = 0%nat) then s
      else
        let s := emit [SaveCursor] s in
        let s := emit (concat (replicate (renderedMenuLines s) [CursorDown; EraseLine])) s in
        let s := emit [RestoreCursor] s in
        let s := set_menuVisible false s in
        set_renderedMenuLines 0 s
  end.

(** The text of one menu entry *)
Definition entryText (isSelected : bool) (cmd : command) : list effect :=
  if isSelected
  then [Text SelectedEntry ("  " +:+ Js.padEnd 12 (name cmd) +:+ desc cmd)]
  else [Text Gray ("  " +:+ Js.padEnd 12 (name cmd)); Text Dim (desc cmd)].

(** The loop of [renderMenu] from entry [i] on *)
Fixpoint drawEntries (i : nat) (selectedIndex : Z) (cmds : list command) : list effect :=
  match cmds with
  | [] => []
  | cmd :: rest =>
      [Newline; EraseLine] ++ entryText (Z.of_nat i =? selectedIndex) cmd
        ++ drawEntries (S i) selectedIndex rest
  end.

(** [renderMenu] *)
Definition renderMenu (v : revision) (s : state) : state :=
  let s := set_filteredCommands (getFilteredCommands s) s in
  match v with
  | Current =>
      let s := clearBelow (renderedMenuLines s) s in
      if decide (length (filteredCommands s) = 0%nat) then
        let s := set_menuVisible false s in
        set_renderedMenuLines 0 s
      else
        let s := emit (drawEntries 0 (selectedIndex s) (filteredCommands s)) s in
        let s := emit [CursorUp (length (filteredCommands s))] s in
        let s := renderInput s in
        let s := set_menuVisible true s in
        set_renderedMenuLines (length (filteredCommands s)) s
  | Legacy =>
      if decide (length (filteredCommands s) = 0%nat) then
        set_menuVisible false s
      else
        let s := emit [SaveCursor] s in
        let s := emit (drawEntries 0 (selectedIndex s) (filteredCommands s)) s in
        let s := emit [RestoreCursor] s in
        let s := set_menuVisible true s in
        set_renderedMenuLines (length (filteredCommands s)) s
  end.

(** ** The keystroke handler *)

Definition KEY_CTRL_C : string := Js.chr 3.
Definition KEY_UP : string := Js.chr 27 +:+ "[A".
Definition KEY_DOWN : string := Js.chr 27 +:+ "[B".
Definition KEY_TAB : string := Js.chr 9.
Definition KEY_CR : string := Js.chr 13.
Definition KEY_LF : string := Js.chr 10.
Definition KEY_DEL : string := Js.chr 127.
Definition KEY_BS : string := Js.chr 8.
Definition KEY_ESC : string := Js.chr 27.

Definition ctrlCNotice : string := "  Use /exit to return to menu or /quit to exit.".

(** [isCommandMode && selectedIndex >= 0 && selectedIndex < filteredCommands.length] *)
Definition hasSelection (s : state) : bool :=
  isCommandMode s && (0 <=? selectedIndex s)
    && (selectedIndex s <? Z.of_nat (length (filteredCommands s))).

(** [input = filteredCommands[selectedIndex].name], under [hasSelection] *)
Definition takeSelection (s : state) : state :=
  match filteredCommands s !! Z.to_nat (selectedIndex s) with
  | Some cmd => set_input (name cmd) s
  | None => s
  end.

Definition onCtrlC (v : revision) (s : state) : state :=
  if negb (ctrlCShown s) then
    let s := clearMenu v s in
    let s :=
      match v with
      | Current =>
          renderInput (emit [Newline; EraseLine; Text Gray ctrlCNotice; CursorUp 1] s)
      | Legacy =>
          emit [SaveCursor; Newline; EraseLine; Text Gray ctrlCNotice; RestoreCursor] s
      end in
    set_ctrlCShown true s
  else s.

(** "Reset ctrlC flag on any other key" *)
Definition resetCtrlC (v : revision) (s : state) : state :=
  if ctrlCShown s then
    let s :=
      match v with
      | Current => renderInput (emit [Newline; EraseLine; CursorUp 1] s)
      | Legacy => emit [SaveCursor; Newline; EraseLine; RestoreCursor] s
      end in
    set_ctrlCShown false s
  else s.

Definition onArrowUp (v : revision) (s : state) : state :=
  if isCommandMode s && (0 <? Z.of_nat (length (filteredCommands s))) then
    let s :=
      set_selectedIndex
        (if selectedIndex s <=? 0 then Z.of_nat (length (filteredCommands s)) - 1
         else selectedIndex s - 1) s in
    renderMenu v s
  else s.

Definition onArrowDown (v : revision) (s : state) : state :=
  if isCommandMode s && (0 <? Z.of_nat (length (filteredCommands s))) then
    let s :=
      set_selectedIndex
        (if selectedIndex s >=? Z.of_nat (length (filteredCommands s)) - 1 then 0
         else selectedIndex s + 1) s in
    renderMenu v s
  else s.

Definition onTab (v : revision) (s : state) : state :=
  if hasSelection s then
    let s := clearMenu v s in
    let s := takeSelection s in
    let s := set_selectedIndex 0 s in
    let s := renderInput s in
    renderMenu v s
  else s.

(** The Enter branch.  The editor resolves with [input.toLowerCase()], which
    [Js.toLowerCase] gives for a buffer of ASCII characters. *)
Definition onEnter (v : revision) (s : state) : state :=
  let s := if hasSelection s then takeSelection s else s in
  let s := clearMenu v s in
  let s := emit [SetRawMode false; RemoveListener; Newline] s in
  set_resolved (Some (Js.toLowerCase (input s), isCommandMode s)) s.

(** The backspace branch; [None] is the [TypeError] of [releaseLetter]. *)
Definition onBackspace (v : revision) (pool : list string) (s : state) : option state :=
  if (0 <? String.length (input s))%nat then
    let s := clearMenu v s in
    let lastChar := Js.lastChar (input s) in
    let s := set_input (Js.sliceInit (input s)) s in
    let s := set_selectedIndex 0 s in
    let wasCommandMode := isCommandMode s in
    let s :=
      if String.eqb (input s) "" || negb (Js.startsWith (input s) "/")
      then set_filteredCommands [] (set_isCommandMode false s)
      else s in
    s ←
      (if negb wasCommandMode && negb (String.eqb lastChar "/") then
         let upperChar := Js.toUpperCase lastChar in
         used ← releaseLetter pool upperChar (usedIndices s);
         let s := set_usedIndices used s in
         Some (emit [OnUpdate (input s) (usedIndices s)] s)
       else Some s);
    let s := renderInput s in
    Some (if isCommandMode s then renderMenu v s else s)
  else Some s.

Definition onEscape (v : revision) (s : state) : state :=
  let s := clearMenu v s in
  let s := set_input "" s in
  let s := set_isCommandMode false s in
  let s := set_selectedIndex 0 s in
  let s := set_filteredCommands [] s in
  let s := set_usedIndices [] s in
  let s := emit [OnUpdate (input s) (usedIndices s)] s in
  renderInput s.

(** The branches after [const char = key] *)
Definition onChar (v : revision) (pool : list string) (char : string) (s : state) : state :=
  if String.eqb char "/" && String.eqb (input s) "" then
    (* starting a command *)
    let s := set_isCommandMode true s in
    let s := set_input "/" s in
    let s := set_selectedIndex 0 s in
    let s := renderInput s in
    renderMenu v s
  else if isCommandMode s then
    let s := clearMenu v s in
    let s := set_input (input s +:+ char) s in
    let s := set_selectedIndex 0 s in
    let s := renderInput s in
    renderMenu v s
  else if Js.testLetter char then
    match isLetterAvailable char pool (usedIndices s) with
    | Some idx =>
        let s := set_usedIndices (Js.add idx (usedIndices s)) s in
        let s := set_input (input s +:+ Js.toUpperCase char) s in
        let s := emit [OnUpdate (input s) (usedIndices s)] s in
        renderInput s
    | None => s
    end
  else s.

(** [handleKey]; [None] when the handler throws. *)
Definition handleKey (v : revision) (pool : list string) (key : string) (s : state)
    : option state :=
  if String.eqb key KEY_CTRL_C then Some (onCtrlC v s)
  else
    let s := resetCtrlC v s in
    if String.eqb key KEY_UP then Some (onArrowUp v s)
    else if String.eqb key KEY_DOWN then Some (onArrowDown v s)
    else if String.eqb key KEY_TAB then Some (onTab v s)
    else if String.eqb key KEY_CR || String.eqb key KEY_LF then Some (onEnter v s)
    else if String.eqb key KEY_DEL || String.eqb key KEY_BS then onBackspace v pool s
    else if String.eqb key KEY_ESC && (String.length key =? 1)%nat then Some (onEscape v s)
    else Some (onChar v pool key s).

(** ** The editor session *)

(** The state in which [interactiveInput] waits for its first key. *)
Definition initial : state :=
  renderInput
    {| input := ""; isCommandMode := false; selectedIndex := 0;
       filteredCommands := []; menuVisible := false; renderedMenuLines := 0;
       usedIndices := []; ctrlCShown := false; resolved := None;
       effects := [SetRawMode true; Resume; SetEncoding "utf8"; AddListener] |}.

(** The ["data"] events [keys] delivered one after the other.  Enter removes
    the listener, so the keys after it do not reach [handleKey]. *)
Fixpoint deliver (v : revision) (pool : list string) (keys : list string) (s : state)
    : option state :=
  match keys with
  | [] => Some s
  | key :: rest =>
      match resolved s with
      | Some _ => Some s
      | None =>
          match handleKey v pool key s with
          | Some s' => deliver v pool rest s'
          | None => None
          end
      end
  end.

Definition run (v : revision) (pool : list string) (keys : list string) : option state :=
  deliver v pool keys initial.

(** [scramble.toUpperCase().split("")], how the caller builds the pool *)
Fixpoint split (s : string) : list string :=
  match s with
  | EmptyString => []
  | String c r => String c EmptyString :: split r
  end.

(** [currentScramble.toUpperCase().split("")], the pool [doPlay] hands to the
    editor; exact for a scramble of ASCII characters (see [Js.toUpperCase]). *)
Definition letterPool (scramble : string) : list string := split (Js.toUpperCase scramble).

(** * The caller of the editor *)

(** ** [doPlay]: what becomes of the editor's result *)

(** [s.slice(1)] *)
Definition sliceFrom1 (s : string) : string :=
  match s with
  | EmptyString => EmptyString
  | String _ r => r
  end.

(** [s.split(" ")[0]]: what precedes the first space *)
Fixpoint beforeSpace (s : string) : string :=
  match s with
  | EmptyString => EmptyString
  | String c r => if Ascii.eqb c " " then EmptyString else String c (beforeSpace r)
  end.

(** The branches of the loop of [doPlay] once [interactiveInput] has
    resolved. *)
Inductive action :=
| AskAgain                           (* if (!answer) continue *)
| ShowHelp                           (* case "help": case "h": *)
| RequestHint                        (* case "hint": *)
| ReturnToMenu                       (* case "exit": case "back": case "menu": *)
| QuitApp                            (* case "quit": case "q": *)
| ShuffleLetters                     (* case "shuffle": case "s": *)
| UnknownCommand (cmd : string)      (* default: *)
| SubmitGuess (guess : string).      (* apiPost(..., { guess: answer }, token) *)

(** [answer.startsWith("/") ? answer.slice(1).split(" ")[0] : answer] *)
Definition commandWord (answer : string) : string :=
  if Js.startsWith answer "/" then beforeSpace (sliceFrom1 answer) else answer.

(** The [switch (cmd)] of [doPlay] *)
Definition switchCommand (cmd : string) : action :=
  if String.eqb cmd "help" || String.eqb cmd "h" then ShowHelp
  else if String.eqb cmd "hint" then RequestHint
  else if String.eqb cmd "exit" || String.eqb cmd "back" || String.eqb cmd "menu"
  then ReturnToMenu
  else if String.eqb cmd "quit" || String.eqb cmd "q" then QuitApp
  else if String.eqb cmd "shuffle" || String.eqb cmd "s" then ShuffleLetters
  else UnknownCommand cmd.

(** What [doPlay] does with [{ input: answer, isCommand }]. *)
Definition dispatch (answer : string) (isCommand : bool) : action :=
  if String.eqb answer "" then AskAgain
  else if isCommand || Js.startsWith answer "/" then switchCommand (commandWord answer)
  else SubmitGuess answer.

(** What [doPlay] does once the session of keys [keys] has resolved;
    [None] while the editor still waits for Enter. *)
Definition played (v : revision) (pool : list string) (keys : list string) : option action :=
  match run v pool keys with
  | Some s =>
      match resolved s with
      | Some (answer, isCommand) => Some (dispatch answer isCommand)
      | None => None
      end
  | None => None
  end.

(** ** [printGameHeader]: the letter tiles *)

(** What [renderLetterTileWithState(ch, used)] draws: the letter in upper
    case, in the colours of a used tile or in those of a free one. *)
Record tile := { tileLetter : string; tileUsed : bool }.

Definition renderLetterTileWithState (ch : string) (used : bool) : tile :=
  {| tileLetter := Js.toUpperCase ch; tileUsed := used |}.

(** [usedIndices?.has(i) || false] *)
Definition hasIndex (usedIndices : option Js.NumSet) (i : nat) : bool :=
  match usedIndices with
  | Some used => Js.has i used
  | None => false
  end.

(** [row1] and [row2] of [printGameHeader], before their tiles are joined;
    [letters] is [scramble.toUpperCase().split("")] as in [letterPool], exact
    for a scramble of ASCII characters. *)
Definition tileRows (scramble : string) (usedIndices : option Js.NumSet)
    : list tile * list tile :=
  let letters := split (Js.toUpperCase scramble) in
  (imap (λ i ch, renderLetterTileWithState ch (hasIndex usedIndices i)) (take 6 letters),
   imap (λ i ch, renderLetterTileWithState ch (hasIndex usedIndices (i + 6)))
     (drop 6 letters)).

(** ** [doPlay]: the header while the editor runs *)

(** The calls of [onUpdate] in a log of effects, in order. *)
Definition updatesIn (es : list effect) : list (string * Js.NumSet) :=
  omap (λ e, match e with OnUpdate i used => Some (i, used) | _ => None end) es.

(** [doPlay] draws the header with [renderGame(true)], hence without
    [usedIndices], before it calls the editor, and its [onUpdate] callback
    draws it again with the arguments of each call: the tiles on screen are
    those of the last call, if there was one. *)
Definition shownUsed (s : state) : option Js.NumSet :=
  snd <$> last (updatesIn (effects s)).

Definition shownTiles (scramble : string) (s : state) : list tile :=
  let rows := tileRows scramble (shownUsed s) in
  rows.1 ++ rows.2.

(** * The statistics *)

(** ** Numbers and arrays as [updateStats] uses them *)

(** The counters are numbers that hold integers, the attempts of a game an
    integer as well.  [x++] and [x + 1] are exact on the integers below
    [2^53]; [2^53 + 1] rounds back to [2^53], which a counter that starts
    at 0 therefore never exceeds. *)
Definition MAX_EXACT : Z := 2 ^ 53.

Definition increment (x : Z) : Z := if x <? MAX_EXACT then x + 1 else x.

(** The elements of a [number[]].  [None] is a hole of the array, which
    [JSON.stringify] saves as [null]: either reads as 0 under [|| 0]. *)
Abbreviation numbers := (list (option Z)).

(** [a[idx] = (a[idx] || 0) + 1].  Inside the array the element is
    replaced; beyond its end the array grows, with holes up to the new
    element; a negative [idx] names a property that is no element (it is
    not counted by [length], not visited by iteration and not saved by
    [JSON.stringify]), so the elements stay as they are. *)
Definition bumpElement (a : numbers) (idx : Z) : numbers :=
  if idx <? 0 then a
  else
    let i := Z.to_nat idx in
    let x := increment (default 0 (a !! i ≫= id)) in
    if (i <? length a)%nat then <[i := Some x]> a
    else a ++ replicate (i - length a) None ++ [Some x].

(** ** [readStats], [writeStats], [updateStats] *)

Record GameStats := {
  gamesPlayed : Z;
  gamesWon : Z;
  currentStreak : Z;
  maxStreak : Z;
  guessDistribution : numbers;
  lastPlayedDate : string;
  lastPlayedWon : bool;
  lastPlayedAttempts : Z
}.

(** What the three functions share: the array [DEFAULT_STATS.guessDistribution]
    refers to, which is one object, so that every copy [{ ...DEFAULT_STATS }]
    refers to it too; the statistics file, [None] when [readFile] fails,
    otherwise what [JSON.parse] makes of it (the file holds what
    [writeStats] wrote, which has all the fields); and whether [mkdir] and
    [writeFile] succeed. *)
Record store := {
  defaultDistribution : numbers;
  statsFile : option GameStats;
  writable : bool
}.

Definition DEFAULT_STATS (σ : store) : GameStats :=
  {| gamesPlayed := 0; gamesWon := 0; currentStreak := 0; maxStreak := 0;
     guessDistribution := defaultDistribution σ;
     lastPlayedDate := ""; lastPlayedWon := false; lastPlayedAttempts := 0 |}.

(** [readStats]: the statistics, and whether their [guessDistribution] is
    the array of [DEFAULT_STATS] itself. *)
Definition readStats (σ : store) : GameStats * bool :=
  match statsFile σ with
  | Some parsed => (parsed, false)
  | None => (DEFAULT_STATS σ, true)
  end.

(** [writeStats]; [None] when it throws. *)
Definition writeStats (stats : GameStats) (σ : store) : option store :=
  if writable σ then
    Some {| defaultDistribution := defaultDistribution σ; statsFile := Some stats;
            writable := writable σ |}
  else None.

(** [updateStats]: the store it leaves, and the statistics it returns
    ([None] when the promise is rejected, by the failure of [writeStats]). *)
Definition updateStats (won : bool) (attempts : Z) (dateKey : string) (σ : store)
    : store * option GameStats :=
  let '(stats, shared) := readStats σ in
  if String.eqb (lastPlayedDate stats) dateKey then (σ, Some stats)
  else
    let played := increment (gamesPlayed stats) in
    let '(stats, σ) :=
      if won then
        let streak := increment (currentStreak stats) in
        let idx := Z.min (attempts - 1) 4 in
        let distribution := bumpElement (guessDistribution stats) idx in
        ({| gamesPlayed := played; gamesWon := increment (gamesWon stats);
            currentStreak := streak; maxStreak := Z.max (maxStreak stats) streak;
            guessDistribution := distribution;
            lastPlayedDate := dateKey; lastPlayedWon := won;
            lastPlayedAttempts := attempts |},
         if shared then
           {| defaultDistribution := distribution; statsFile := statsFile σ;
              writable := writable σ |}
         else σ)
      else
        ({| gamesPlayed := played; gamesWon := gamesWon stats;
            currentStreak := 0; maxStreak := maxStreak stats;
            guessDistribution := guessDistribution stats;
            lastPlayedDate := dateKey; lastPlayedWon := won;
            lastPlayedAttempts := attempts |},
         σ) in
    match writeStats stats σ with
    | Some σ' => (σ', Some stats)
    | None => (σ, None)
    end.

(** The store when the program starts without a statistics file. *)
Definition freshStore (writable : bool) : store :=
  {| defaultDistribution := [Some 0; Some 0; Some 0; Some 0; Some 0];
     statsFile := None; writable := writable |}.

(** * The address of the server *)

(** [url.replace(/\/$/, "")]: the pattern matches a slash at the end of the
    string, which is removed. *)
Definition normalizeBaseUrl (url : string) : string :=
  if String.eqb (Js.lastChar url) "/" then Js.sliceInit url else url.

(** The address [apiGet] and [apiPost] hand to [fetch]. *)
Definition requestUrl (baseUrl pathUrl : string) : string := baseUrl +:+ pathUrl.

(** * Invariants and vocabulary of the properties *)

(** The letter, in upper case, of the pool tile at index [i]. *)
Definition letterAt (pool : list string) (i : nat) : string :=
  Js.toUpperCase (default "" (pool !! i)).

(** The letters of the consumed tiles, in the order they were consumed. *)
Definition consumedLetters (pool : list string) (used : Js.NumSet) : list string :=
  map (letterAt pool) used.

(** Every character of the string is an upper-case ASCII letter. *)
Fixpoint allUpper (s : string) : bool :=
  match s with
  | EmptyString => true
  | String c r =>
      Js.isAsciiLetter c && Ascii.eqb (Js.toUpperCase_char c) c && allUpper r
  end.

(** The buffer and the consumed set agree: in Word mode the buffer spells, up
    to order, the letters of the consumed tiles; in Command mode no tile is
    consumed. *)
Record pool_ok (pool : list string) (s : state) : Prop := {
  used_nodup : NoDup (usedIndices s);
  used_bound : Forall (λ i, (i < length pool)%nat) (usedIndices s);
  word_letters :
    isCommandMode s = false → split (input s) ≡ₚ consumedLetters pool (usedIndices s);
  word_upper : isCommandMode s = false → allUpper (input s) = true;
  cmd_used : isCommandMode s = true → usedIndices s = []
}.

(** The menu bookkeeping: the filtered list is the one of the current buffer
    while the editor waits for keys, the selection points into it, and the
    recorded line count is zero or the size of the list. *)
Record menu_ok (s : state) : Prop := {
  word_menu : isCommandMode s = false → filteredCommands s = [] ∧ selectedIndex s = 0;
  cmd_live :
    isCommandMode s = true → resolved s = None →
    Js.startsWith (input s) "/" = true ∧ filteredCommands s = getFilteredCommands s;
  sel_bound :
    filteredCommands s ≠ [] →
    0 ≤ selectedIndex s < Z.of_nat (length (filteredCommands s));
  filtered_sub : ∀ c, c ∈ filteredCommands s → c ∈ COMMANDS;
  hidden_lines : menuVisible s = false → renderedMenuLines s = 0%nat;
  lines_count :
    renderedMenuLines s = 0%nat ∨ renderedMenuLines s = length (filteredCommands s)
}.

(** The invariant of the editor. *)
Definition consistent (pool : list string) (s : state) : Prop :=
  pool_ok pool s ∧ menu_ok s.

(** The keys [handleKey] tests for before it treats the key as a typed
    character. *)
Definition isControlKey (key : string) : bool :=
  String.eqb key KEY_CTRL_C || String.eqb key KEY_UP || String.eqb key KEY_DOWN
  || String.eqb key KEY_TAB || String.eqb key KEY_CR || String.eqb key KEY_LF
  || String.eqb key KEY_DEL || String.eqb key KEY_BS || String.eqb key KEY_ESC.

(** A key is a letter drawn from the pool: one letter, carried (in either
    case) by some tile of the pool. *)
Definition drawnFrom (pool : list string) (key : string) : Prop :=
  Js.testLetter key = true
  ∧ ∃ p, p ∈ pool ∧ Js.toUpperCase p = Js.toUpperCase key.

(** What a session has resolved with, if it has, is the lower-case form of
    its buffer, and its mode. *)
Definition resolution_ok (s : state) : Prop :=
  ∀ r, resolved s = Some r → r = (Js.toLowerCase (input s), isCommandMode s).

(** The entry the selection index points at, when it lies within the
    filtered list of an editor in Command mode. *)
Definition selectedCommand (s : state) : option command :=
  if hasSelection s then filteredCommands s !! Z.to_nat (selectedIndex s) else None.

(** What an operation taking [s] to [s'] added to the log of effects. *)
Definition appended (s s' : state) : list effect :=
  drop (length (effects s)) (effects s').

(** The text of a menu entry starts with its name, drawn as the selected
    entry or in gray. *)
Definition isEntryText (e : effect) : bool :=
  match e with
  | Text SelectedEntry _ | Text Gray _ => true
  | _ => false
  end.

(** The control sequence that erases the line the cursor is on. *)
Definition isEraseLine (e : effect) : bool :=
  match e with
  | EraseLine => true
  | _ => false
  end.

(** The number of menu entries written by a run of effects. *)
Definition entriesWritten (es : list effect) : nat :=
  length (filter (λ e, Is_true (isEntryText e)) es).

(** The number of line erasures in a run of effects. *)
Definition linesErased (es : list effect) : nat :=
  length (filter (λ e, Is_true (isEraseLine e)) es).

(** What the legacy [renderMenu] relies on: it does not touch the recorded
    count when the filtered list is empty, so the menu must have been erased
    by then.  The current revision erases the previous menu itself. *)
Definition renderMenu_ready (v : revision) (s : state) : Prop :=
  match v with
  | Current => True
  | Legacy => getFilteredCommands s = [] → renderedMenuLines s = 0%nat
  end.

(** The state reached ends with a call of [renderMenu], made in a state the
    call is ready for. *)
Definition rendersReady (v : revision) (s' : state) : Prop :=
  ∃ a, s' = renderMenu v a ∧ renderMenu_ready v a.

(** The keys on which [handleKey] calls [renderMenu]: an arrow in Command
    mode over a non-empty list, Tab with a selection, a backspace that stays
    in Command mode, the prefix on an empty buffer, and any character typed
    in Command mode. *)
Definition callsRenderMenu (key : string) (s s' : state) : Prop :=
  ((key = KEY_UP ∨ key = KEY_DOWN) ∧ isCommandMode s = true ∧ filteredCommands s ≠ [])
  ∨ (key = KEY_TAB ∧ hasSelection s = true)
  ∨ ((key = KEY_DEL ∨ key = KEY_BS) ∧ input s ≠ "" ∧ isCommandMode s' = true)
  ∨ (isControlKey key = false ∧ ((key = "/" ∧ input s = "") ∨ isCommandMode s = true)).

(** The header follows the editor: the last call of [onUpdate] carried the
    consumed set as it is now, and the Word-mode buffer as it is now. *)
Definition display_ok (s : state) : Prop :=
  match last (updatesIn (effects s)) with
  | Some (i, used) =>
      used = usedIndices s ∧ i = (if isCommandMode s then "" else input s)
  | None => usedIndices s = [] ∧ (isCommandMode s = false → input s = "")
  end.

(** ** Vocabulary of the statistics *)

(** A finished game as it is reported to [updateStats]. *)
Record report := { r_won : bool; r_attempts : Z; r_date : string }.

(** The reports handed to [updateStats] one after the other. *)
Fixpoint updateAll (reports : list report) (σ : store) : store :=
  match reports with
  | [] => σ
  | r :: rest => updateAll rest (updateStats (r_won r) (r_attempts r) (r_date r) σ).1
  end.

(** The reports that are not a repetition of the date recorded last,
    [lastDate] being that date before the first of them. *)
Fixpoint recordedFrom (lastDate : string) (reports : list report) : list report :=
  match reports with
  | [] => []
  | r :: rest =>
      if String.eqb lastDate (r_date r) then recordedFrom lastDate rest
      else r :: recordedFrom (r_date r) rest
  end.

Fixpoint leadingWins (reports : list report) : nat :=
  match reports with
  | [] => 0
  | r :: rest => if r_won r then S (leadingWins rest) else 0
  end.

(** The number of wins at the end of a log of games, back to the last loss. *)
Definition streak (log : list report) : nat := leadingWins (reverse log).

(** The game counts for bar [i] of the distribution: a win in [i + 1]
    attempts, or, for the last bar, in five or more. *)
Definition solvedIn (i : nat) (r : report) : bool :=
  r_won r
  && (if (i =? 4)%nat then 5 <=? r_attempts r else r_attempts r =? Z.of_nat i + 1).

(** The statistics are those of the log of games. *)
Record summarises (log : list report) (stats : GameStats) : Prop := {
  sum_played : gamesPlayed stats = Z.of_nat (length log);
  sum_won :
    gamesWon stats = Z.of_nat (length (filter (λ r, Is_true (r_won r)) log));
  sum_streak : currentStreak stats = Z.of_nat (streak log);
  sum_max_reached :
    ∃ p, p `prefix_of` log ∧ maxStreak stats = Z.of_nat (streak p);
  sum_max_bound : ∀ p, p `prefix_of` log → Z.of_nat (streak p) ≤ maxStreak stats;
  sum_bars : length (guessDistribution stats) = 5%nat;
  sum_distribution :
    ∀ i, (i < 5)%nat →
      guessDistribution stats !! i
      = Some (Some (Z.of_nat (length (filter (λ r, Is_true (solvedIn i r)) log))));
  sum_last :
    match last log with
    | Some r =>
        lastPlayedDate stats = r_date r ∧ lastPlayedWon stats = r_won r
        ∧ lastPlayedAttempts stats = r_attempts r
    | None =>
        lastPlayedDate stats = "" ∧ lastPlayedWon stats = false
        ∧ lastPlayedAttempts stats = 0
    end
}.

(** * Properties *)

(** ** Strings and sets *)

Module JsFacts.
Import Js.

Lemma app_cons c r t : String c r +:+ t = String c (r +:+ t).
Proof. reflexivity. Qed.

Lemma length_app s t : String.length (s +:+ t) = (String.length s + String.length t)%nat.
Proof. induction s as [|c r IH]; [done|]. rewrite app_cons. simpl. by f_equal. Qed.

(** A non-empty string is its [slice(0, -1)] followed by its last
    character. *)
Lemma snoc_inv s :
  s ≠ "" → ∃ c, lastChar s = String c "" ∧ s = sliceInit s +:+ String c "".
Proof.
  induction s as [|d r IH]; [done|]. intros _.
  destruct r as [|e r'].
  - exists d. done.
  - destruct IH as (c & Hl & Hs); [done|].
    exists c. split; [exact Hl|].
    change (sliceInit (String d (String e r'))) with (String d (sliceInit (String e r'))).
    rewrite app_cons. by rewrite <- Hs.
Qed.

Lemma startsWith_nil s : startsWith s "" = true.
Proof. by destruct s. Qed.

Lemma startsWith_cons c s d p :
  startsWith (String c s) (String d p) = if Ascii.ascii_dec d c then startsWith s p else false.
Proof. reflexivity. Qed.

Lemma startsWith_slash s : startsWith s "/" = true ↔ ∃ r, s = String "/" r.
Proof.
  destruct s as [|c r].
  - split; [done|]. intros [? ?]; done.
  - rewrite startsWith_cons, startsWith_nil.
    destruct (Ascii.ascii_dec "/" c) as [<-|Hne].
    + split; eauto.
    + split; [done|]. intros [? [= -> _]]. done.
Qed.

Lemma startsWith_app s t p : startsWith s p = true → startsWith (s +:+ t) p = true.
Proof.
  revert s. induction p as [|c p IH]; intros s.
  - intros _. apply startsWith_nil.
  - destruct s as [|d s]; [done|].
    rewrite app_cons, !startsWith_cons.
    destruct (Ascii.ascii_dec c d); [apply IH|done].
Qed.

Lemma testLetter_inv s : testLetter s = true → ∃ c, s = String c "" ∧ isAsciiLetter c = true.
Proof. destruct s as [|c [|]]; simpl; try done. eauto. Qed.

Lemma has_false i (s : NumSet) : has i s = false ↔ i ∉ s.
Proof. unfold has. by rewrite bool_decide_eq_false. Qed.

Lemma add_fresh i (s : NumSet) : i ∉ s → add i s = s ++ [i].
Proof. intros H. unfold add. apply has_false in H. by rewrite H. Qed.

Lemma delete_absent i (s : NumSet) : i ∉ s → delete i s = s.
Proof.
  unfold delete. induction s as [|j s IH]; [done|].
  intros Hi. apply not_elem_of_cons in Hi as [Hne Hi].
  rewrite filter_cons_True by done. f_equal. by apply IH.
Qed.

Lemma delete_middle i (l1 l2 : NumSet) :
  NoDup (l1 ++ i :: l2) → delete i (l1 ++ i :: l2) = l1 ++ l2.
Proof.
  intros Hnd. apply NoDup_app in Hnd as (_ & Hdisj & Hnd2).
  apply NoDup_cons in Hnd2 as [Hi2 _].
  assert (Hi1 : i ∉ l1) by (intros Hin; apply (Hdisj _ Hin); left).
  pose proof (delete_absent i l1 Hi1) as E1.
  pose proof (delete_absent i l2 Hi2) as E2.
  unfold delete in *. rewrite filter_app, filter_cons_False by naive_solver.
  by rewrite E1, E2.
Qed.

End JsFacts.

(** ** What drawing leaves alone *)

(** Drawing and erasing the menu write to the terminal and update the menu
    bookkeeping; the other variables of the closure keep their values. *)
Ltac frame_tac v :=
  destruct v; unfold clearMenu, renderMenu, clearBelow, renderInput; simpl;
  repeat (case_decide || case_bool_decide || destruct (menuVisible _)); reflexivity.

Section Frame.
Context (v : revision) (s : state).

Lemma clearMenu_input : input (clearMenu v s) = input s.
Proof. frame_tac v. Qed.
Lemma clearMenu_isCommandMode : isCommandMode (clearMenu v s) = isCommandMode s.
Proof. frame_tac v. Qed.
Lemma clearMenu_selectedIndex : selectedIndex (clearMenu v s) = selectedIndex s.
Proof. frame_tac v. Qed.
Lemma clearMenu_filteredCommands : filteredCommands (clearMenu v s) = filteredCommands s.
Proof. frame_tac v. Qed.
Lemma clearMenu_usedIndices : usedIndices (clearMenu v s) = usedIndices s.
Proof. frame_tac v. Qed.
Lemma clearMenu_ctrlCShown : ctrlCShown (clearMenu v s) = ctrlCShown s.
Proof. frame_tac v. Qed.
Lemma clearMenu_resolved : resolved (clearMenu v s) = resolved s.
Proof. frame_tac v. Qed.

Lemma renderMenu_input : input (renderMenu v s) = input s.
Proof. frame_tac v. Qed.
Lemma renderMenu_isCommandMode : isCommandMode (renderMenu v s) = isCommandMode s.
Proof. frame_tac v. Qed.
Lemma renderMenu_selectedIndex : selectedIndex (renderMenu v s) = selectedIndex s.
Proof. frame_tac v. Qed.
Lemma renderMenu_filteredCommands : filteredCommands (renderMenu v s) = getFilteredCommands s.
Proof. frame_tac v. Qed.
Lemma renderMenu_usedIndices : usedIndices (renderMenu v s) = usedIndices s.
Proof. frame_tac v. Qed.
Lemma renderMenu_ctrlCShown : ctrlCShown (renderMenu v s) = ctrlCShown s.
Proof. frame_tac v. Qed.
Lemma renderMenu_resolved : resolved (renderMenu v s) = resolved s.
Proof. frame_tac v. Qed.

(** Once the menu is erased no line is recorded.  The legacy revision skips
    the erasure when the menu is not visible, so it relies on the count
    being zero then. *)
Lemma clearMenu_renderedMenuLines :
  (menuVisible s = false → renderedMenuLines s = 0%nat) →
  renderedMenuLines (clearMenu v s) = 0%nat.
Proof.
  intros Hvis. destruct v; unfold clearMenu; simpl.
  - by case_decide.
  - destruct (menuVisible s); simpl; [|by apply Hvis].
    by case_bool_decide.
Qed.

(** After [renderMenu] the recorded count is the size of the filtered
    list.  The legacy revision leaves the count alone when the list is
    empty, so it relies on the menu having been erased before. *)
Lemma renderMenu_renderedMenuLines :
  (v = Legacy → getFilteredCommands s = [] → renderedMenuLines s = 0%nat) →
  renderedMenuLines (renderMenu v s) = length (getFilteredCommands s).
Proof.
  intros Hpre. destruct v; unfold renderMenu; simpl.
  - unfold clearBelow. by repeat case_decide.
  - case_decide as Hlen; simpl; [|done].
    rewrite Hlen. apply Hpre; [done|]. by apply nil_length_inv.
Qed.

Lemma renderMenu_menuVisible :
  menuVisible (renderMenu v s) = bool_decide (getFilteredCommands s ≠ []).
Proof.
  destruct v; unfold renderMenu, clearBelow; simpl;
    repeat case_decide; simpl; case_bool_decide; try done.
  all: match goal with H : length _ = 0%nat |- _ => apply nil_length_inv in H end
       || match goal with H : _ = [] |- _ => rewrite H in * end; done.
Qed.

End Frame.

#[global] Arguments clearMenu : simpl never.
#[global] Arguments renderMenu : simpl never.

Create Rewrite HintDb frame.

#[export] Hint Rewrite
  clearMenu_input clearMenu_isCommandMode clearMenu_selectedIndex
  clearMenu_filteredCommands clearMenu_usedIndices clearMenu_ctrlCShown
  clearMenu_resolved
  renderMenu_input renderMenu_isCommandMode renderMenu_selectedIndex
  renderMenu_filteredCommands renderMenu_usedIndices renderMenu_ctrlCShown
  renderMenu_resolved : frame.

(** The filtered list depends on the mode and on the buffer only. *)
Lemma getFilteredCommands_ext s1 s2 :
  isCommandMode s1 = isCommandMode s2 → input s1 = input s2 →
  getFilteredCommands s1 = getFilteredCommands s2.
Proof. unfold getFilteredCommands. by intros -> ->. Qed.

Lemma getFilteredCommands_sub s c : c ∈ getFilteredCommands s → c ∈ COMMANDS.
Proof.
  unfold getFilteredCommands. destruct (isCommandMode s); simpl.
  - by intros [_ ?]%list_elem_of_filter.
  - by intros ?%elem_of_nil.
Qed.

Lemma getFilteredCommands_word s : isCommandMode s = false → getFilteredCommands s = [].
Proof. unfold getFilteredCommands. by intros ->. Qed.

(** ** Pool tracker *)

Section PoolTracker.
Context (pool : list string).

Lemma isLetterAvailable_from_Some rest : ∀ i u used idx,
  isLetterAvailable_from i u rest used = Some idx →
  ∃ p, rest !! ((idx - i)%nat) = Some p ∧ (i ≤ idx)%nat ∧ (idx ∉ used) ∧ Js.toUpperCase p = u.
Proof.
  induction rest as [|p rest IH]; intros i u used idx; simpl; [done|].
  destruct (negb (Js.has i used) && String.eqb (Js.toUpperCase p) u) eqn:E.
  - intros [= <-]. apply andb_true_iff in E as [Hfree Heq].
    apply negb_true_iff, JsFacts.has_false in Hfree. apply String.eqb_eq in Heq.
    exists p. by rewrite Nat.sub_diag.
  - intros H. apply IH in H as (q & Hq & Hle & Hfree & Hu).
    exists q. replace (idx - i)%nat with (S (idx - S i)) by lia.
    repeat split; [done|lia|done|done].
Qed.

Lemma isLetterAvailable_from_None rest : ∀ i u used,
  isLetterAvailable_from i u rest used = None →
  ∀ k p, rest !! k = Some p → ((i + k)%nat) ∉ used → Js.toUpperCase p ≠ u.
Proof.
  induction rest as [|q rest IH]; intros i u used; simpl; [done|].
  destruct (negb (Js.has i used) && String.eqb (Js.toUpperCase q) u) eqn:E; [done|].
  intros H [|k] p Hp Hfree.
  - simpl in Hp. injection Hp as ->. rewrite Nat.add_0_r in Hfree.
    apply JsFacts.has_false in Hfree. rewrite Hfree in E. simpl in E.
    by apply String.eqb_neq in E.
  - simpl in Hp. apply (IH (S i) u used H k p Hp).
    by replace (S i + k)%nat with (i + S k)%nat by lia.
Qed.

(** What [isLetterAvailable] returns is a free tile carrying the letter. *)
Lemma isLetterAvailable_Some letter used idx :
  isLetterAvailable letter pool used = Some idx →
  (idx < length pool)%nat ∧ (idx ∉ used) ∧ letterAt pool idx = Js.toUpperCase letter.
Proof.
  intros H. apply isLetterAvailable_from_Some in H as (p & Hp & _ & Hfree & Hu).
  rewrite Nat.sub_0_r in Hp. split; [by eapply lookup_lt_Some|].
  split; [done|]. unfold letterAt. by rewrite Hp.
Qed.

(** It returns nothing only when no free tile carries the letter. *)
Lemma isLetterAvailable_None letter used :
  isLetterAvailable letter pool used = None ↔
  ∀ i, (i < length pool)%nat → i ∉ used → letterAt pool i ≠ Js.toUpperCase letter.
Proof.
  split.
  - intros H i Hi Hfree. apply lookup_lt_is_Some in Hi as [p Hp].
    unfold letterAt. rewrite Hp. simpl.
    by apply (isLetterAvailable_from_None _ _ _ _ H i p Hp).
  - intros H. destruct (isLetterAvailable letter pool used) as [idx|] eqn:E; [|done].
    apply isLetterAvailable_Some in E as (Hlt & Hfree & Hu).
    by destruct (H idx Hlt Hfree).
Qed.

(** The loop of the backspace branch finds the first consumed tile of the
    letter whenever there is one, and never reads outside the pool when
    the consumed indices are indices of the pool. *)
Lemma findConsumed_found u used :
  Forall (λ i, (i < length pool)%nat) used →
  u ∈ consumedLetters pool used →
  ∃ l1 idx l2, used = l1 ++ idx :: l2 ∧ letterAt pool idx = u
    ∧ findConsumed pool u used = Some (Some idx).
Proof.
  induction used as [|i used IH]; simpl; [by intros _ ?%elem_of_nil|].
  intros [Hi Hused]%Forall_cons Hin.
  apply lookup_lt_is_Some in Hi as [p Hp]. rewrite Hp.
  destruct (String.eqb (Js.toUpperCase p) u) eqn:E.
  - apply String.eqb_eq in E. exists [], i, used.
    split; [done|]. split; [|done]. unfold letterAt. by rewrite Hp.
  - apply String.eqb_neq in E. apply elem_of_cons in Hin as [Hu|Hin].
    + unfold letterAt in Hu. rewrite Hp in Hu. by destruct E.
    + destruct (IH Hused Hin) as (l1 & idx & l2 & -> & Hl & Hf).
      exists (i :: l1), idx, l2. done.
Qed.

End PoolTracker.

Lemma length_split s : length (split s) = String.length s.
Proof. induction s as [|c r IH]; simpl; [done|]. by rewrite IH. Qed.

Lemma split_app s t : split (s +:+ t) = split s ++ split t.
Proof.
  induction s as [|c r IH]; [done|].
  rewrite JsFacts.app_cons. simpl. by rewrite IH.
Qed.

Lemma allUpper_app s t : allUpper (s +:+ t) = allUpper s && allUpper t.
Proof.
  induction s as [|c r IH]; [done|].
  rewrite JsFacts.app_cons. simpl. rewrite IH. by rewrite andb_assoc.
Qed.

Lemma allUpper_toUpperCase_letter c :
  Js.isAsciiLetter c = true → allUpper (Js.toUpperCase (String c "")) = true.
Proof. by destruct c as [[] [] [] [] [] [] [] []]. Qed.

Lemma allUpper_toUpperCase s : allUpper s = true → Js.toUpperCase s = s.
Proof.
  induction s as [|c r IH]; simpl; [done|].
  intros [[_ Hc]%andb_true_iff Hr]%andb_true_iff.
  apply Ascii.eqb_eq in Hc. by rewrite Hc, IH.
Qed.

Lemma allUpper_not_slash s : allUpper s = true → Js.startsWith s "/" = false.
Proof.
  destruct s as [|c r]; [done|]. intros H. simpl in H.
  apply andb_true_iff in H as [[Hc _]%andb_true_iff _].
  rewrite JsFacts.startsWith_cons. destruct (Ascii.ascii_dec "/" c) as [<-|]; done.
Qed.

Lemma allUpper_lastChar_not_slash s : allUpper s = true → Js.lastChar s ≠ "/".
Proof.
  destruct (decide (s = "")) as [->|Hne]; [done|].
  destruct (JsFacts.snoc_inv s Hne) as (c & Hl & Hs).
  intros H. rewrite Hs, allUpper_app in H. rewrite Hl.
  apply andb_true_iff in H as [_ H]. simpl in H.
  apply andb_true_iff in H as [[Hc _]%andb_true_iff _].
  intros [= ->]. done.
Qed.

Lemma allUpper_sliceInit s : allUpper s = true → allUpper (Js.sliceInit s) = true.
Proof.
  destruct (decide (s = "")) as [->|Hne]; [done|].
  destruct (JsFacts.snoc_inv s Hne) as (c & Hl & Hs).
  rewrite Hs at 1. rewrite allUpper_app. by intros [? _]%andb_true_iff.
Qed.

(** ** Invariants of the editor *)

Lemma pool_ok_ext pool s1 s2 :
  input s2 = input s1 → isCommandMode s2 = isCommandMode s1 →
  usedIndices s2 = usedIndices s1 → pool_ok pool s1 → pool_ok pool s2.
Proof. intros Hi Hm Hu [? ? ? ? ?]. split; rewrite ?Hi, ?Hm, ?Hu; done. Qed.

Lemma menu_ok_ext s1 s2 :
  input s2 = input s1 → isCommandMode s2 = isCommandMode s1 →
  selectedIndex s2 = selectedIndex s1 → filteredCommands s2 = filteredCommands s1 →
  menuVisible s2 = menuVisible s1 → renderedMenuLines s2 = renderedMenuLines s1 →
  resolved s2 = resolved s1 → menu_ok s1 → menu_ok s2.
Proof.
  intros Hi Hm Hs Hf Hv Hl Hr [? ? ? ? ? ?].
  assert (getFilteredCommands s2 = getFilteredCommands s1) as Hg
    by (by apply getFilteredCommands_ext).
  split; rewrite ?Hg, ?Hi, ?Hm, ?Hs, ?Hf, ?Hv, ?Hl, ?Hr; done.
Qed.

(** In Word mode the bookkeeping does not depend on the buffer. *)
Lemma menu_ok_word s1 s2 :
  isCommandMode s2 = false →
  selectedIndex s2 = selectedIndex s1 → filteredCommands s2 = filteredCommands s1 →
  menuVisible s2 = menuVisible s1 → renderedMenuLines s2 = renderedMenuLines s1 →
  isCommandMode s1 = false → menu_ok s1 → menu_ok s2.
Proof.
  intros Hm Hs Hf Hv Hl Hm1 [Hw ? ? ? ? ?].
  split; rewrite ?Hs, ?Hf, ?Hv, ?Hl; try done.
  - intros _. by apply Hw.
  - by rewrite Hm.
Qed.

Lemma COMMANDS_slash c : c ∈ COMMANDS → Js.startsWith (name c) "/" = true.
Proof.
  unfold COMMANDS. rewrite !elem_of_cons, elem_of_nil.
  intros [->|[->|[->|[->|[->|[]]]]]]; reflexivity.
Qed.

Lemma COMMANDS_lower c : c ∈ COMMANDS → Js.toLowerCase (name c) = name c.
Proof.
  unfold COMMANDS. rewrite !elem_of_cons, elem_of_nil.
  intros [->|[->|[->|[->|[->|[]]]]]]; reflexivity.
Qed.

(** With a selection, the selected entry exists. *)
Lemma hasSelection_lookup s :
  hasSelection s = true →
  isCommandMode s = true ∧
  ∃ cmd, filteredCommands s !! Z.to_nat (selectedIndex s) = Some cmd.
Proof.
  unfold hasSelection. intros [[Hm H0]%andb_true_iff Hlt]%andb_true_iff.
  split; [done|]. apply lookup_lt_is_Some. lia.
Qed.

Lemma takeSelection_input s cmd :
  filteredCommands s !! Z.to_nat (selectedIndex s) = Some cmd →
  takeSelection s = set_input (name cmd) s.
Proof. unfold takeSelection. by intros ->. Qed.

Section Preservation.
Context (v : revision) (pool : list string).

Lemma menu_ok_clearMenu s : menu_ok s → menu_ok (clearMenu v s).
Proof.
  intros [? ? ? ? Hh ?].
  pose proof (clearMenu_renderedMenuLines v s Hh) as Hz.
  split; autorewrite with frame; try done.
  - intros Hm Hr. rewrite (getFilteredCommands_ext (clearMenu v s) s)
      by (by autorewrite with frame). auto.
  - by left.
Qed.

(** [renderMenu] re-establishes the bookkeeping for the buffer it is
    called with. *)
Lemma menu_ok_renderMenu s :
  (isCommandMode s = true → Js.startsWith (input s) "/" = true) →
  (isCommandMode s = false → selectedIndex s = 0) →
  (getFilteredCommands s ≠ [] →
   0 ≤ selectedIndex s < Z.of_nat (length (getFilteredCommands s))) →
  (getFilteredCommands s = [] → renderedMenuLines s = 0%nat) →
  menu_ok (renderMenu v s).
Proof.
  intros Hslash Hword Hsel Hlines.
  assert (renderedMenuLines (renderMenu v s) = length (getFilteredCommands s)) as Hn
    by (apply renderMenu_renderedMenuLines; auto).
  assert (getFilteredCommands (renderMenu v s) = getFilteredCommands s) as Hg
    by (apply getFilteredCommands_ext; by autorewrite with frame).
  split; autorewrite with frame; rewrite ?Hg; try done.
  - intros Hm. split; [by apply getFilteredCommands_word|auto].
  - auto.
  - apply getFilteredCommands_sub.
  - rewrite renderMenu_menuVisible, Hn. intros Hv%bool_decide_eq_false.
    destruct (getFilteredCommands s); [done|]. by destruct Hv.
  - by right.
Qed.

Lemma resetCtrlC_pool_ok s : pool_ok pool s → pool_ok pool (resetCtrlC v s).
Proof. apply pool_ok_ext; unfold resetCtrlC; destruct (ctrlCShown s), v; done. Qed.

Lemma resetCtrlC_menu_ok s : menu_ok s → menu_ok (resetCtrlC v s).
Proof. apply menu_ok_ext; unfold resetCtrlC; destruct (ctrlCShown s), v; done. Qed.

Lemma resetCtrlC_resolved s : resolved (resetCtrlC v s) = resolved s.
Proof. unfold resetCtrlC; destruct (ctrlCShown s), v; done. Qed.

Lemma onCtrlC_pool_ok s : pool_ok pool s → pool_ok pool (onCtrlC v s).
Proof.
  apply pool_ok_ext; unfold onCtrlC; destruct (ctrlCShown s), v; simpl;
    by autorewrite with frame.
Qed.

Lemma onCtrlC_menu_ok s : menu_ok s → menu_ok (onCtrlC v s).
Proof.
  intros H. unfold onCtrlC. destruct (ctrlCShown s); simpl; [done|].
  apply (menu_ok_ext (clearMenu v s)); [destruct v; done ..|].
  by apply menu_ok_clearMenu.
Qed.

Lemma onArrowUp_pool_ok s : pool_ok pool s → pool_ok pool (onArrowUp v s).
Proof.
  apply pool_ok_ext; unfold onArrowUp;
    destruct (isCommandMode s && _); by autorewrite with frame.
Qed.

Lemma onArrowDown_pool_ok s : pool_ok pool s → pool_ok pool (onArrowDown v s).
Proof.
  apply pool_ok_ext; unfold onArrowDown;
    destruct (isCommandMode s && _); by autorewrite with frame.
Qed.

(** Moving the selection: the list [renderMenu] recomputes is the one the
    arrow wrapped around. *)
Lemma arrow_menu_ok s x :
  menu_ok s → resolved s = None → isCommandMode s = true →
  (0 < Z.of_nat (length (filteredCommands s))) →
  0 ≤ x < Z.of_nat (length (filteredCommands s)) →
  menu_ok (renderMenu v (set_selectedIndex x s)).
Proof.
  intros H Hr Hm Hlen Hx. destruct (cmd_live s H Hm Hr) as [Hslash Hf].
  assert (getFilteredCommands (set_selectedIndex x s) = filteredCommands s) as Hg
    by (rewrite Hf; by apply getFilteredCommands_ext).
  apply menu_ok_renderMenu; rewrite ?Hg; simpl; try done.
  - by rewrite Hm.
  - intros E. rewrite E in Hlen. simpl in Hlen. lia.
Qed.

Lemma onArrowUp_menu_ok s : menu_ok s → resolved s = None → menu_ok (onArrowUp v s).
Proof.
  intros H Hr. unfold onArrowUp.
  destruct (isCommandMode s && _) eqn:E; [|done].
  apply andb_true_iff in E as [Hm Hlen]. apply Z.ltb_lt in Hlen.
  apply arrow_menu_ok; try done.
  assert (0 ≤ selectedIndex s < Z.of_nat (length (filteredCommands s))).
  { apply sel_bound; [done|]. intros E. rewrite E in Hlen. simpl in Hlen. lia. }
  destruct (selectedIndex s <=? 0) eqn:E; lia.
Qed.

Lemma onArrowDown_menu_ok s : menu_ok s → resolved s = None → menu_ok (onArrowDown v s).
Proof.
  intros H Hr. unfold onArrowDown.
  destruct (isCommandMode s && _) eqn:E; [|done].
  apply andb_true_iff in E as [Hm Hlen]. apply Z.ltb_lt in Hlen.
  apply arrow_menu_ok; try done.
  assert (0 ≤ selectedIndex s < Z.of_nat (length (filteredCommands s))).
  { apply sel_bound; [done|]. intros E. rewrite E in Hlen. simpl in Hlen. lia. }
  destruct (selectedIndex s >=? _) eqn:E; lia.
Qed.

(** After a completion the buffer is a command name. *)
Lemma onTab_pool_ok s : pool_ok pool s → pool_ok pool (onTab v s).
Proof.
  intros H. unfold onTab. destruct (hasSelection s) eqn:E; [|done].
  apply hasSelection_lookup in E as (Hm & cmd & Hcmd).
  rewrite (takeSelection_input (clearMenu v s) cmd) by (by autorewrite with frame).
  destruct H as [? ? ? ? Hu].
  split; simpl; autorewrite with frame; simpl; autorewrite with frame;
    try done; by rewrite Hm.
Qed.

Lemma onTab_menu_ok s : menu_ok s → menu_ok (onTab v s).
Proof.
  intros H. unfold onTab. destruct (hasSelection s) eqn:E; [|done].
  apply hasSelection_lookup in E as (Hm & cmd & Hcmd).
  rewrite (takeSelection_input (clearMenu v s) cmd) by (by autorewrite with frame).
  apply menu_ok_renderMenu; simpl; autorewrite with frame.
  - intros _. apply COMMANDS_slash, (filtered_sub s H).
    by eapply list_elem_of_lookup_2.
  - done.
  - intros Hne. split; [done|].
    destruct (getFilteredCommands _); [done|]. simpl; lia.
  - intros _. apply clearMenu_renderedMenuLines, (hidden_lines s H).
Qed.

Lemma onEnter_pool_ok s : pool_ok pool s → pool_ok pool (onEnter v s).
Proof.
  intros [? ? Hl Hup Hu]. unfold onEnter.
  destruct (hasSelection s) eqn:E.
  - apply hasSelection_lookup in E as (Hm & cmd & Hcmd).
    rewrite (takeSelection_input s cmd) by done.
    split; simpl; autorewrite with frame; simpl; try done; by rewrite Hm.
  - split; simpl; autorewrite with frame; done.
Qed.

Lemma onEnter_menu_ok s : menu_ok s → menu_ok (onEnter v s).
Proof.
  intros H. unfold onEnter.
  pose proof (clearMenu_renderedMenuLines v s (hidden_lines s H)) as Hz.
  assert (∀ s', renderedMenuLines s' = renderedMenuLines s →
                menuVisible s' = menuVisible s →
                renderedMenuLines (clearMenu v s') = 0%nat) as Hz'.
  { intros s' Hl Hv. apply clearMenu_renderedMenuLines. rewrite Hl, Hv.
    apply (hidden_lines s H). }
  destruct H as [Hw ? ? ? ? ?].
  destruct (hasSelection s) eqn:E.
  - apply hasSelection_lookup in E as (Hm & cmd & Hcmd).
    rewrite (takeSelection_input s cmd) by done.
    split; simpl; autorewrite with frame; simpl; try done.
    + intros _. by apply Hz'.
    + left. by apply Hz'.
  - split; simpl; autorewrite with frame; try done. by left.
Qed.

Lemma onEscape_pool_ok s : pool_ok pool (onEscape v s).
Proof. split; simpl; try done. constructor. Qed.

Lemma onEscape_menu_ok s : menu_ok s → menu_ok (onEscape v s).
Proof.
  intros H.
  pose proof (clearMenu_renderedMenuLines v s (hidden_lines s H)) as Hz.
  split; simpl; try done.
  - by intros c ?%elem_of_nil.
  - by left.
Qed.

End Preservation.

(** ** Consuming and releasing a tile *)

Section ConsumeRelease.
Context (pool : list string).

(** Typing an available letter: the tile found is new to the consumed set
    and carries the letter appended to the buffer. *)
Lemma consume_letter buf used c idx :
  isLetterAvailable (String c "") pool used = Some idx →
  NoDup used → Forall (λ i, (i < length pool)%nat) used →
  split buf ≡ₚ consumedLetters pool used →
  NoDup (Js.add idx used)
  ∧ Forall (λ i, (i < length pool)%nat) (Js.add idx used)
  ∧ split (buf +:+ Js.toUpperCase (String c "")) ≡ₚ consumedLetters pool (Js.add idx used)
  ∧ length (Js.add idx used) = S (length used).
Proof.
  intros (Hlt & Hfree & Hletter)%isLetterAvailable_Some Hnd Hb Hperm.
  rewrite (JsFacts.add_fresh idx used Hfree).
  repeat split.
  - apply NoDup_app. repeat split; [done| |apply NoDup_singleton].
    intros j Hj ->%list_elem_of_singleton. done.
  - apply Forall_app. split; [done|]. by apply Forall_singleton.
  - rewrite split_app. unfold consumedLetters. rewrite map_app. simpl.
    rewrite Hletter. by apply Permutation_app.
  - rewrite length_app. simpl. lia.
Qed.

(** Backspacing a letter of the Word-mode buffer: the loop frees one
    consumed tile carrying that letter and nothing else. *)
Lemma release_letter buf used c :
  NoDup used → Forall (λ i, (i < length pool)%nat) used →
  split (buf +:+ String c "") ≡ₚ consumedLetters pool used →
  ∃ idx, idx ∈ used ∧ letterAt pool idx = String c ""
    ∧ releaseLetter pool (String c "") used = Some (Js.delete idx used)
    ∧ NoDup (Js.delete idx used)
    ∧ Forall (λ i, (i < length pool)%nat) (Js.delete idx used)
    ∧ split buf ≡ₚ consumedLetters pool (Js.delete idx used)
    ∧ S (length (Js.delete idx used)) = length used.
Proof.
  intros Hnd Hb Hperm.
  assert (String c "" ∈ consumedLetters pool used) as Hin.
  { rewrite <- Hperm, split_app. apply elem_of_app. right. simpl. left. }
  destruct (findConsumed_found pool _ _ Hb Hin) as (l1 & idx & l2 & -> & Hl & Hf).
  exists idx. rewrite (JsFacts.delete_middle idx l1 l2 Hnd).
  split; [apply elem_of_app; right; left|].
  split; [done|].
  split; [unfold releaseLetter; rewrite Hf; by rewrite JsFacts.delete_middle|].
  split.
  { apply NoDup_app in Hnd as (H1 & Hd & [_ H2]%NoDup_cons).
    apply NoDup_app. repeat split; [done| |done].
    intros j Hj Hj2. apply (Hd j Hj). by right. }
  split.
  { apply Forall_app in Hb as [H1 [_ H2]%Forall_cons]. by apply Forall_app. }
  split.
  - unfold consumedLetters in *. rewrite split_app, map_app in Hperm. simpl in Hperm.
    rewrite Hl in Hperm. rewrite map_app.
    rewrite <- Permutation_cons_append, <- Permutation_middle in Hperm.
    by apply Permutation_cons_inv in Hperm.
  - rewrite !length_app. simpl. lia.
Qed.

End ConsumeRelease.

(** ** Every key keeps the invariants *)

Lemma pool_ok_command pool s :
  isCommandMode s = true → usedIndices s = [] → pool_ok pool s.
Proof.
  intros Hm Hu. split; rewrite ?Hm, ?Hu; try done. constructor.
Qed.

(** With an empty buffer no tile is consumed, in either mode. *)
Lemma pool_ok_empty pool s : pool_ok pool s → input s = "" → usedIndices s = [].
Proof.
  intros [_ _ Hl _ Hu] Hi. destruct (isCommandMode s) eqn:Hm; [by apply Hu|].
  specialize (Hl eq_refl). rewrite Hi in Hl. simpl in Hl.
  apply Permutation_nil_l in Hl. unfold consumedLetters in Hl.
  symmetry in Hl. by apply map_eq_nil in Hl.
Qed.

Lemma getFilteredCommands_slash s :
  isCommandMode s = true → input s = "/" → getFilteredCommands s = COMMANDS.
Proof. unfold getFilteredCommands. intros -> ->. reflexivity. Qed.

Section PreservationKeys.
Context (v : revision) (pool : list string).

Lemma onChar_consistent char s :
  consistent pool s → resolved s = None → consistent pool (onChar v pool char s).
Proof.
  intros [Hp Hmenu] Hr. unfold onChar.
  destruct (String.eqb char "/" && String.eqb (input s) "") eqn:Estart.
  { (* starting a command *)
    apply andb_true_iff in Estart as [_ Hi%String.eqb_eq].
    split.
    - apply pool_ok_command; simpl; autorewrite with frame; simpl; [done|].
      by apply (pool_ok_empty pool).
    - apply menu_ok_renderMenu; simpl; done. }
  destruct (isCommandMode s) eqn:Hm.
  { (* in command mode *)
    destruct (cmd_live s Hmenu Hm Hr) as [Hslash _].
    split.
    - apply pool_ok_command; simpl; autorewrite with frame; simpl;
        autorewrite with frame; [done|]. by apply (cmd_used pool s).
    - apply menu_ok_renderMenu; simpl; autorewrite with frame.
      + intros _. by apply JsFacts.startsWith_app.
      + done.
      + intros Hne. split; [done|].
        destruct (getFilteredCommands _); [done|]. simpl; lia.
      + intros _. apply clearMenu_renderedMenuLines, (hidden_lines s Hmenu). }
  destruct (Js.testLetter char) eqn:Hletter; [|done].
  destruct (isLetterAvailable char pool (usedIndices s)) as [idx|] eqn:Havail; [|done].
  (* Word mode, an available letter *)
  apply JsFacts.testLetter_inv in Hletter as (c & -> & Hc).
  destruct Hp as [Hnd Hb Hl Hup Hu].
  destruct (consume_letter pool (input s) (usedIndices s) c idx Havail Hnd Hb (Hl Hm))
    as (Hnd' & Hb' & Hl' & _).
  split.
  - split; simpl; [done|done|done| |by rewrite Hm].
    intros _. rewrite allUpper_app, (Hup Hm). simpl andb.
    by apply allUpper_toUpperCase_letter.
  - by apply (menu_ok_word s).
Qed.

Lemma onChar_resolved char s : resolved (onChar v pool char s) = resolved s.
Proof.
  unfold onChar.
  destruct (_ && _); [by autorewrite with frame|].
  destruct (isCommandMode s); [autorewrite with frame; simpl; by autorewrite with frame|].
  destruct (Js.testLetter char); [|done].
  by destruct (isLetterAvailable char pool (usedIndices s)).
Qed.

(** In Command mode a backspace either leaves a buffer that still starts
    with the prefix or empties it. *)
Lemma sliceInit_slash b :
  Js.startsWith b "/" = true →
  Js.sliceInit b = "" ∨ (Js.sliceInit b ≠ "" ∧ Js.startsWith (Js.sliceInit b) "/" = true).
Proof.
  intros [r ->]%JsFacts.startsWith_slash. destruct r as [|c r]; [by left|].
  right. change (Js.sliceInit (String "/" (String c r)))
    with (String "/" (Js.sliceInit (String c r))).
  split; [done|]. apply JsFacts.startsWith_slash. eauto.
Qed.

Lemma onBackspace_consistent s :
  consistent pool s → resolved s = None →
  ∃ s', onBackspace v pool s = Some s' ∧ consistent pool s' ∧ resolved s' = None.
Proof.
  intros [Hp Hmenu] Hr. unfold onBackspace.
  destruct (0 <? String.length (input s))%nat eqn:Hlen; [|by exists s].
  apply Nat.ltb_lt in Hlen.
  assert (input s ≠ "") as Hne by (intros E; rewrite E in Hlen; simpl in Hlen; lia).
  pose proof (clearMenu_renderedMenuLines v s (hidden_lines s Hmenu)) as Hz.
  simpl. autorewrite with frame.
  destruct (isCommandMode s) eqn:Hm; simpl.
  - (* Command mode *)
    destruct (cmd_live s Hmenu Hm Hr) as [Hslash _].
    destruct (sliceInit_slash (input s) Hslash) as [E|[E1 E2]].
    + rewrite E. simpl. eexists. split; [done|]. split; [split|].
      * pose proof (cmd_used pool s Hp Hm) as Hu.
        split; simpl; autorewrite with frame; rewrite ?Hu; try done; constructor.
      * split; simpl; autorewrite with frame; try done; [|by left].
        by intros c ?%elem_of_nil.
      * simpl. by autorewrite with frame.
    + apply String.eqb_neq in E1. rewrite E1, E2. simpl.
      autorewrite with frame. rewrite Hm.
      eexists. split; [done|]. split; [split|].
      * apply pool_ok_command; autorewrite with frame; simpl;
          autorewrite with frame; [done|]. by apply (cmd_used pool s).
      * apply menu_ok_renderMenu; simpl; autorewrite with frame.
        -- done.
        -- done.
        -- intros Hne'. split; [done|].
           destruct (getFilteredCommands _); [done|]. simpl; lia.
        -- done.
      * autorewrite with frame. simpl. by autorewrite with frame.
  - (* Word mode *)
    destruct Hp as [Hnd Hb Hl Hup Hu].
    specialize (Hl Hm). specialize (Hup Hm).
    destruct (JsFacts.snoc_inv (input s) Hne) as (c & Hlast & Hsnoc).
    pose proof (allUpper_lastChar_not_slash _ Hup) as Hns.
    pose proof (allUpper_sliceInit _ Hup) as Hup'.
    rewrite (allUpper_not_slash _ Hup'). rewrite orb_true_r. simpl.
    apply String.eqb_neq in Hns. rewrite Hns. simpl.
    assert (Js.toUpperCase (Js.lastChar (input s)) = String c "") as Hupper.
    { rewrite Hlast. rewrite Hsnoc, allUpper_app in Hup.
      apply andb_true_iff in Hup as [_ Hup]. by apply allUpper_toUpperCase. }
    rewrite Hupper. rewrite Hsnoc in Hl.
    destruct (release_letter pool _ _ c Hnd Hb Hl)
      as (idx & _ & _ & Hrel & Hnd' & Hb' & Hl' & _).
    autorewrite with frame. rewrite Hrel. simpl.
    eexists. split; [done|]. split; [split|].
    + split; simpl; done.
    + split; simpl; autorewrite with frame; try done.
      * by intros c' ?%elem_of_nil.
      * by left.
    + simpl. by autorewrite with frame.
Qed.

(** [handleKey] never throws on a consistent state and keeps it
    consistent. *)
Lemma handleKey_consistent key s :
  consistent pool s → resolved s = None →
  ∃ s', handleKey v pool key s = Some s' ∧ consistent pool s'.
Proof.
  intros [Hp Hmenu] Hr. unfold handleKey.
  destruct (String.eqb key KEY_CTRL_C).
  { eexists. split; [done|]. split; [by apply onCtrlC_pool_ok|by apply onCtrlC_menu_ok]. }
  pose proof (resetCtrlC_pool_ok v pool s Hp) as Hp'.
  pose proof (resetCtrlC_menu_ok v s Hmenu) as Hmenu'.
  pose proof (resetCtrlC_resolved v s) as Hr'. rewrite Hr in Hr'.
  destruct (String.eqb key KEY_UP).
  { eexists. split; [done|].
    split; [by apply onArrowUp_pool_ok|by apply onArrowUp_menu_ok]. }
  destruct (String.eqb key KEY_DOWN).
  { eexists. split; [done|].
    split; [by apply onArrowDown_pool_ok|by apply onArrowDown_menu_ok]. }
  destruct (String.eqb key KEY_TAB).
  { eexists. split; [done|]. split; [by apply onTab_pool_ok|by apply onTab_menu_ok]. }
  destruct (String.eqb key KEY_CR || String.eqb key KEY_LF).
  { eexists. split; [done|]. split; [by apply onEnter_pool_ok|by apply onEnter_menu_ok]. }
  destruct (String.eqb key KEY_DEL || String.eqb key KEY_BS).
  { destruct (onBackspace_consistent (resetCtrlC v s)) as (s' & -> & Hc & _); [done..|].
    by exists s'. }
  destruct (String.eqb key KEY_ESC && (String.length key =? 1)%nat).
  { eexists. split; [done|]. split; [by apply onEscape_pool_ok|by apply onEscape_menu_ok]. }
  eexists. split; [done|]. by apply onChar_consistent.
Qed.

Lemma initial_consistent : consistent pool initial.
Proof.
  split; split; simpl; try done.
  - constructor.
  - by intros c ?%elem_of_nil.
  - by left.
Qed.

(** A session never throws, and every state it reaches is consistent. *)
Lemma deliver_consistent keys : ∀ s,
  consistent pool s →
  ∃ s', deliver v pool keys s = Some s' ∧ consistent pool s'.
Proof.
  induction keys as [|key keys IH]; intros s Hc; simpl; [by exists s|].
  destruct (resolved s) eqn:Hr; [by exists s|].
  destruct (handleKey_consistent key s Hc Hr) as (s1 & -> & Hc1).
  by apply IH.
Qed.

Lemma run_consistent keys :
  ∃ s, run v pool keys = Some s ∧ consistent pool s.
Proof. apply deliver_consistent, initial_consistent. Qed.

End PreservationKeys.

(** ** Which branch a key takes *)

Lemma handleKey_char v pool key s :
  isControlKey key = false →
  handleKey v pool key s = Some (onChar v pool key (resetCtrlC v s)).
Proof.
  unfold isControlKey, handleKey. intros H.
  repeat (apply orb_false_iff in H as [H ?]).
  repeat match goal with E : String.eqb _ _ = false |- _ => rewrite E; clear E end.
  reflexivity.
Qed.

Lemma letter_not_control c : Js.isAsciiLetter c = true → isControlKey (String c "") = false.
Proof. destruct c as [[] [] [] [] [] [] [] []]; intros H; try discriminate H; reflexivity. Qed.

Lemma letter_not_slash c : Js.isAsciiLetter c = true → String.eqb (String c "") "/" = false.
Proof. destruct c as [[] [] [] [] [] [] [] []]; intros H; try discriminate H; reflexivity. Qed.

Lemma handleKey_up v pool s : handleKey v pool KEY_UP s = Some (onArrowUp v (resetCtrlC v s)).
Proof. reflexivity. Qed.

Lemma handleKey_down v pool s :
  handleKey v pool KEY_DOWN s = Some (onArrowDown v (resetCtrlC v s)).
Proof. reflexivity. Qed.

Lemma handleKey_tab v pool s : handleKey v pool KEY_TAB s = Some (onTab v (resetCtrlC v s)).
Proof. reflexivity. Qed.

Lemma handleKey_enter v pool key s :
  key = KEY_CR ∨ key = KEY_LF →
  handleKey v pool key s = Some (onEnter v (resetCtrlC v s)).
Proof. by intros [-> | ->]. Qed.

Lemma handleKey_backspace v pool key s :
  key = KEY_DEL ∨ key = KEY_BS →
  handleKey v pool key s = onBackspace v pool (resetCtrlC v s).
Proof. by intros [-> | ->]. Qed.

Lemma handleKey_escape v pool s :
  handleKey v pool KEY_ESC s = Some (onEscape v (resetCtrlC v s)).
Proof. reflexivity. Qed.

(** Every key is one of the control keys or a typed character. *)
Lemma handleKey_cases v pool key s :
  (key = KEY_CTRL_C ∧ handleKey v pool key s = Some (onCtrlC v s))
  ∨ (key = KEY_UP ∧ handleKey v pool key s = Some (onArrowUp v (resetCtrlC v s)))
  ∨ (key = KEY_DOWN ∧ handleKey v pool key s = Some (onArrowDown v (resetCtrlC v s)))
  ∨ (key = KEY_TAB ∧ handleKey v pool key s = Some (onTab v (resetCtrlC v s)))
  ∨ ((key = KEY_CR ∨ key = KEY_LF)
     ∧ handleKey v pool key s = Some (onEnter v (resetCtrlC v s)))
  ∨ ((key = KEY_DEL ∨ key = KEY_BS)
     ∧ handleKey v pool key s = onBackspace v pool (resetCtrlC v s))
  ∨ (key = KEY_ESC ∧ handleKey v pool key s = Some (onEscape v (resetCtrlC v s)))
  ∨ (isControlKey key = false
     ∧ handleKey v pool key s = Some (onChar v pool key (resetCtrlC v s))).
Proof.
  destruct (String.eqb_spec key KEY_CTRL_C) as [->|H1]; [by left|].
  destruct (String.eqb_spec key KEY_UP) as [->|H2]; [by right; left|].
  destruct (String.eqb_spec key KEY_DOWN) as [->|H3]; [by do 2 right; left|].
  destruct (String.eqb_spec key KEY_TAB) as [->|H4]; [by do 3 right; left|].
  destruct (String.eqb_spec key KEY_CR) as [->|H5]; [do 4 right; left; by eauto|].
  destruct (String.eqb_spec key KEY_LF) as [->|H6]; [do 4 right; left; by eauto|].
  destruct (String.eqb_spec key KEY_DEL) as [->|H7]; [do 5 right; left; by eauto|].
  destruct (String.eqb_spec key KEY_BS) as [->|H8]; [do 5 right; left; by eauto|].
  destruct (String.eqb_spec key KEY_ESC) as [->|H9]; [by do 6 right; left|].
  do 7 right.
  assert (isControlKey key = false) as Hc.
  { unfold isControlKey.
    repeat match goal with H : key ≠ _ |- _ => apply String.eqb_neq in H; rewrite H; clear H end.
    reflexivity. }
  split; [done|]. by apply handleKey_char.
Qed.

(** ** Sessions of letter keys *)

Lemma word_size pool s :
  pool_ok pool s → isCommandMode s = false →
  length (usedIndices s) = String.length (input s).
Proof.
  intros [_ _ Hl _ _] Hm. specialize (Hl Hm).
  apply Permutation_length in Hl.
  unfold consumedLetters in Hl. by rewrite length_split, length_map in Hl.
Qed.

Lemma onChar_letter_word v pool key s :
  Js.testLetter key = true → isCommandMode s = false →
  isCommandMode (onChar v pool key s) = false.
Proof.
  intros (c & -> & Hc)%JsFacts.testLetter_inv Hm. unfold onChar.
  rewrite (letter_not_slash c Hc), Hm. simpl.
  rewrite Hc. by destruct (isLetterAvailable _ _ _).
Qed.

Lemma deliver_letters v pool keys : ∀ s,
  Forall (λ key, Js.testLetter key = true) keys →
  consistent pool s → isCommandMode s = false → resolved s = None →
  ∃ s', deliver v pool keys s = Some s' ∧ consistent pool s'
    ∧ isCommandMode s' = false ∧ resolved s' = None.
Proof.
  induction keys as [|key keys IH]; intros s Hkeys Hc Hm Hr; simpl; [by exists s|].
  apply Forall_cons in Hkeys as [Hkey Hkeys]. rewrite Hr.
  destruct (JsFacts.testLetter_inv key Hkey) as (c & -> & Hletter).
  rewrite (handleKey_char _ _ _ _ (letter_not_control c Hletter)).
  apply IH; [done| | |].
  - apply onChar_consistent; [|by rewrite resetCtrlC_resolved].
    destruct Hc. split; [by apply resetCtrlC_pool_ok|by apply resetCtrlC_menu_ok].
  - apply onChar_letter_word; [done|].
    unfold resetCtrlC. by destruct (ctrlCShown s), v.
  - by rewrite onChar_resolved, resetCtrlC_resolved.
Qed.

(** C1. For every pool and every sequence of keystrokes that are letters
    drawn from the pool, at every point of the session (after every prefix
    of the sequence) the editor is in Word mode, the consumed set has as many
    indices as the buffer has characters, and no pool index occurs twice in
    the consumed set. *)
Theorem consumed_size_is_buffer_length v pool keys n :
  Forall (drawnFrom pool) keys →
  ∃ s, run v pool (take n keys) = Some s
    ∧ isCommandMode s = false
    ∧ length (usedIndices s) = String.length (input s)
    ∧ NoDup (usedIndices s).
Proof.
  intros Hkeys.
  assert (Forall (λ key, Js.testLetter key = true) (take n keys)) as Hletters.
  { apply Forall_take. eapply Forall_impl; [exact Hkeys|]. by intros key [? _]. }
  destruct (deliver_letters v pool (take n keys) initial Hletters
              (initial_consistent pool) eq_refl eq_refl)
    as (s & Hrun & [Hp _] & Hm & _).
  exists s. split; [exact Hrun|]. split; [exact Hm|].
  split; [by apply (word_size pool)|by apply (used_nodup pool)].
Qed.

Lemma consumed_size_is_buffer_length_witness :
  ∃ s, run Current (letterPool "aab") (take 2 ["a"; "B"; "A"]) = Some s
    ∧ isCommandMode s = false
    ∧ length (usedIndices s) = String.length (input s)
    ∧ NoDup (usedIndices s).
Proof.
  apply (consumed_size_is_buffer_length Current (letterPool "aab") ["a"; "B"; "A"] 2).
  repeat constructor; try reflexivity.
  - exists "A". split; [left|reflexivity].
  - exists "B". split; [right; right; left|reflexivity].
  - exists "A". split; [left|reflexivity].
Defined.

(** Whatever the keys, whenever the editor is in Word mode the consumed set
    has the size of the buffer and holds each index once. *)
Lemma word_mode_consumed_size v pool keys :
  ∃ s, run v pool keys = Some s
    ∧ (isCommandMode s = false →
       length (usedIndices s) = String.length (input s) ∧ NoDup (usedIndices s)).
Proof.
  destruct (run_consistent v pool keys) as (s & Hrun & [Hp _]).
  exists s. split; [done|]. intros Hm.
  split; [by apply (word_size pool)|by apply (used_nodup pool)].
Qed.

(** ** Resolution *)

Lemma resetCtrlC_fields v s :
  input (resetCtrlC v s) = input s
  ∧ isCommandMode (resetCtrlC v s) = isCommandMode s
  ∧ selectedIndex (resetCtrlC v s) = selectedIndex s
  ∧ filteredCommands (resetCtrlC v s) = filteredCommands s
  ∧ usedIndices (resetCtrlC v s) = usedIndices s
  ∧ menuVisible (resetCtrlC v s) = menuVisible s
  ∧ renderedMenuLines (resetCtrlC v s) = renderedMenuLines s.
Proof. unfold resetCtrlC. by destruct (ctrlCShown s), v. Qed.

(** Enter resolves with the buffer in lower case and the mode. *)
Lemma onEnter_resolved v s :
  resolved (onEnter v s) = Some (Js.toLowerCase (input (onEnter v s)), isCommandMode s)
  ∧ isCommandMode (onEnter v s) = isCommandMode s.
Proof.
  unfold onEnter. destruct (hasSelection s) eqn:E; simpl; autorewrite with frame; [|done].
  apply hasSelection_lookup in E as (_ & cmd & Hcmd).
  by rewrite (takeSelection_input s cmd Hcmd).
Qed.

(** No other key resolves. *)
Lemma onCtrlC_resolved v s : resolved (onCtrlC v s) = resolved s.
Proof. unfold onCtrlC. destruct (ctrlCShown s), v; simpl; by autorewrite with frame. Qed.

Lemma onArrowUp_resolved v s : resolved (onArrowUp v s) = resolved s.
Proof. unfold onArrowUp. destruct (_ && _); by autorewrite with frame. Qed.

Lemma onArrowDown_resolved v s : resolved (onArrowDown v s) = resolved s.
Proof. unfold onArrowDown. destruct (_ && _); by autorewrite with frame. Qed.

Lemma onTab_resolved v s : resolved (onTab v s) = resolved s.
Proof.
  unfold onTab, takeSelection. destruct (hasSelection s); [|done].
  autorewrite with frame. simpl.
  destruct (_ !! _); simpl; by autorewrite with frame.
Qed.

Lemma onEscape_resolved v s : resolved (onEscape v s) = resolved s.
Proof. unfold onEscape. simpl. by autorewrite with frame. Qed.

Lemma onBackspace_resolved v pool s s' :
  onBackspace v pool s = Some s' → resolved s' = resolved s.
Proof.
  unfold onBackspace. destruct (0 <? _)%nat; [|by intros [= <-]].
  simpl. destruct (negb _ && negb _); simpl.
  - destruct (releaseLetter _ _ _) as [used|]; simpl; [|done].
    intros [= <-].
    repeat match goal with |- context [if ?b then _ else _] => destruct b end;
      simpl; autorewrite with frame; simpl; by autorewrite with frame.
  - intros [= <-].
    repeat match goal with |- context [if ?b then _ else _] => destruct b end;
      simpl; autorewrite with frame; simpl; by autorewrite with frame.
Qed.

Lemma handleKey_resolution v pool key s s' :
  resolved s = None → handleKey v pool key s = Some s' → resolution_ok s'.
Proof.
  intros Hr Hk r Hr1.
  pose proof (resetCtrlC_resolved v s) as Hr0. rewrite Hr in Hr0.
  destruct (handleKey_cases v pool key s)
    as [[_ E]|[[_ E]|[[_ E]|[[_ E]|[[_ E]|[[_ E]|[[_ E]|[_ E]]]]]]]];
    rewrite E in Hk.
  - injection Hk as <-. rewrite onCtrlC_resolved in Hr1. congruence.
  - injection Hk as <-. rewrite onArrowUp_resolved in Hr1. congruence.
  - injection Hk as <-. rewrite onArrowDown_resolved in Hr1. congruence.
  - injection Hk as <-. rewrite onTab_resolved in Hr1. congruence.
  - injection Hk as <-.
    destruct (onEnter_resolved v (resetCtrlC v s)) as [E1 E2].
    rewrite E1 in Hr1. injection Hr1 as <-. by rewrite E2.
  - apply onBackspace_resolved in Hk. congruence.
  - injection Hk as <-. rewrite onEscape_resolved in Hr1. congruence.
  - injection Hk as <-. rewrite onChar_resolved in Hr1. congruence.
Qed.

Lemma deliver_resolution v pool keys : ∀ s s',
  resolution_ok s → deliver v pool keys s = Some s' → resolution_ok s'.
Proof.
  induction keys as [|key keys IH]; intros s s' Hs; simpl; [by intros [= <-]|].
  destruct (resolved s) eqn:Hr; [by intros [= <-]|].
  destruct (handleKey v pool key s) as [s1|] eqn:Hk; [|done].
  apply IH. by eapply handleKey_resolution.
Qed.

Lemma deliver_app v pool keys1 keys2 s s1 :
  deliver v pool keys1 s = Some s1 →
  deliver v pool (keys1 ++ keys2) s = deliver v pool keys2 s1 ∨
  (deliver v pool (keys1 ++ keys2) s = Some s1 ∧ resolved s1 ≠ None).
Proof.
  revert s. induction keys1 as [|key keys1 IH]; intros s; simpl.
  - intros [= <-]. by left.
  - destruct (resolved s) eqn:Hr.
    + intros [= <-]. right. by rewrite Hr.
    + destruct (handleKey v pool key s) as [s'|]; [apply IH|done].
Qed.

Lemma isAsciiLetter_isAsciiChar c : Js.isAsciiLetter c = true → Js.isAsciiChar c = true.
Proof.
  unfold Js.isAsciiLetter, Js.isAsciiChar. intros H. apply Nat.ltb_lt.
  apply orb_true_iff in H as [H|H]; apply andb_true_iff in H as [_ H];
    apply Nat.leb_le in H; lia.
Qed.

(** The Word-mode buffer, made of upper-case ASCII letters, is ASCII. *)
Lemma allUpper_isAscii s : allUpper s = true → Js.isAscii s = true.
Proof.
  induction s as [|c r IH]; [done|]. simpl.
  intros [[Hc _]%andb_true_iff Hr]%andb_true_iff.
  by rewrite (isAsciiLetter_isAsciiChar c Hc), (IH Hr).
Qed.

Lemma toLowerCase_char_fixed c :
  Js.toLowerCase_char c = c ↔ Js.isUpperChar c = false.
Proof.
  unfold Js.toLowerCase_char, Js.isUpperChar.
  destruct ((65 <=? nat_of_ascii c) && (nat_of_ascii c <=? 90))%nat eqn:E; [|done].
  split; [|done]. intros H. exfalso.
  apply andb_true_iff in E as [H1%Nat.leb_le H2%Nat.leb_le].
  apply (f_equal nat_of_ascii) in H. rewrite nat_ascii_embedding in H by lia. lia.
Qed.

(** Lower-casing leaves a string as it is exactly when it holds none of the
    letters A to Z. *)
Lemma toLowerCase_fixed s : Js.toLowerCase s = s ↔ Js.hasUpperCase s = false.
Proof.
  induction s as [|c r IH]; [done|]. simpl. rewrite orb_false_iff, <- IH.
  rewrite <- toLowerCase_char_fixed. split.
  - by intros [= -> ->].
  - by intros [-> ->].
Qed.

(** C2, as amended.  For every keystroke sequence ending in Enter the
    editor resolves, with its mode as the flag.  When the final buffer
    (after any Command-mode selection replacement) holds ASCII characters
    only, as it always does in Word mode, the string the editor resolves
    with is that buffer converted to lower case: it is the buffer itself
    exactly when the buffer holds no upper-case letter. *)
Theorem enter_resolves_with_lowercase_buffer v pool keys enter :
  enter = KEY_CR ∨ enter = KEY_LF →
  ∃ s answer, run v pool (keys ++ [enter]) = Some s
    ∧ resolved s = Some (answer, isCommandMode s)
    ∧ (isCommandMode s = false → Js.isAscii (input s) = true)
    ∧ (Js.isAscii (input s) = true →
       answer = Js.toLowerCase (input s)
       ∧ (answer = input s ↔ Js.hasUpperCase (input s) = false)).
Proof.
  intros Henter.
  destruct (run_consistent v pool (keys ++ [enter])) as (s & Hrun' & [Hp _]).
  assert (resolved s = Some (Js.toLowerCase (input s), isCommandMode s)) as Hres.
  { revert Hrun'. unfold run.
    destruct (run_consistent v pool keys) as (s1 & Hrun & _). unfold run in Hrun.
    assert (resolution_ok s1) as Hok.
    { eapply deliver_resolution; [|exact Hrun]. by intros r. }
    destruct (deliver_app v pool keys [enter] initial s1 Hrun) as [E|[E Hres]]; rewrite E.
    - simpl. destruct (resolved s1) as [r|] eqn:Hr.
      + intros [= <-]. by rewrite Hr, (Hok r Hr).
      + rewrite (handleKey_enter v pool enter s1 Henter). intros [= <-].
        destruct (onEnter_resolved v (resetCtrlC v s1)) as [E1 E2].
        by rewrite E1, E2.
    - intros [= <-].
      destruct (resolved s1) as [r|] eqn:Hr; [|done]. by rewrite (Hok r Hr). }
  exists s, (Js.toLowerCase (input s)). split; [done|]. split; [done|]. split.
  - intros Hm. apply allUpper_isAscii, (word_upper pool s Hp Hm).
  - intros _. split; [done|]. apply toLowerCase_fixed.
Qed.

Lemma enter_resolves_with_lowercase_buffer_witness :
  ∃ s answer, run Current (letterPool "cat") (["c"; "a"; "t"] ++ [KEY_CR]) = Some s
    ∧ resolved s = Some (answer, isCommandMode s)
    ∧ (isCommandMode s = false → Js.isAscii (input s) = true)
    ∧ (Js.isAscii (input s) = true →
       answer = Js.toLowerCase (input s)
       ∧ (answer = input s ↔ Js.hasUpperCase (input s) = false)).
Proof.
  apply (enter_resolves_with_lowercase_buffer Current (letterPool "cat") ["c"; "a"; "t"] KEY_CR).
  left. reflexivity.
Defined.

(** C2, as stated, fails: with the pool of "cat", typing c, a, t and Enter
    leaves the buffer "CAT" and resolves with "cat". *)
Lemma resolved_string_is_not_the_buffer :
  ∃ s, run Current (letterPool "cat") ["c"; "a"; "t"; KEY_CR] = Some s
    ∧ input s = "CAT"
    ∧ resolved s = Some ("cat", false)
    ∧ fst <$> resolved s ≠ Some (input s).
Proof. eexists. split; [vm_compute; reflexivity|]. simpl. repeat split; done. Qed.

(** ** Duplicate letters *)

(** C3. With the pool A, A, B: typing A twice consumes both A tiles; one
    backspace frees exactly one of them; typing A again succeeds, appending
    to the buffer and consuming the freed tile; a further A changes
    nothing. *)
Theorem duplicate_letter_release v bs :
  bs = KEY_DEL ∨ bs = KEY_BS →
  let pool := ["A"; "A"; "B"] in
  ∃ s2 s3 s4,
    run v pool ["A"; "A"] = Some s2
    ∧ input s2 = "AA" ∧ usedIndices s2 = [0; 1]%nat
    ∧ run v pool ["A"; "A"; bs] = Some s3
    ∧ input s3 = "A" ∧ usedIndices s3 = [1]%nat
    ∧ run v pool ["A"; "A"; bs; "A"] = Some s4
    ∧ input s4 = "AA" ∧ usedIndices s4 = [1; 0]%nat
    ∧ handleKey v pool "A" s4 = Some s4
    ∧ run v pool ["A"; "A"; bs; "A"; "A"] = Some s4.
Proof.
  intros Hbs pool.
  destruct Hbs as [-> | ->]; destruct v;
    do 3 eexists; (split; [vm_compute; reflexivity|]);
    repeat (split; [vm_compute; reflexivity|]); vm_compute; reflexivity.
Qed.

Lemma duplicate_letter_release_witness :
  let pool := ["A"; "A"; "B"] in
  ∃ s2 s3 s4,
    run Current pool ["A"; "A"] = Some s2
    ∧ input s2 = "AA" ∧ usedIndices s2 = [0; 1]%nat
    ∧ run Current pool ["A"; "A"; KEY_DEL] = Some s3
    ∧ input s3 = "A" ∧ usedIndices s3 = [1]%nat
    ∧ run Current pool ["A"; "A"; KEY_DEL; "A"] = Some s4
    ∧ input s4 = "AA" ∧ usedIndices s4 = [1; 0]%nat
    ∧ handleKey Current pool "A" s4 = Some s4
    ∧ run Current pool ["A"; "A"; KEY_DEL; "A"; "A"] = Some s4.
Proof. apply (duplicate_letter_release Current KEY_DEL). left. reflexivity. Defined.

(** ** Escape *)

(** C7. Escape, in any state, empties the buffer and the consumed set, sets
    the selection to 0 and the mode to Word. *)
Theorem escape_resets v pool s :
  ∃ s', handleKey v pool KEY_ESC s = Some s'
    ∧ input s' = ""
    ∧ usedIndices s' = []
    ∧ selectedIndex s' = 0
    ∧ isCommandMode s' = false.
Proof. rewrite handleKey_escape. eexists. split; [done|]. by simpl. Qed.

(** ** Mode transitions *)

Section Mode.
Context (v : revision) (pool : list string).

Lemma onCtrlC_isCommandMode s : isCommandMode (onCtrlC v s) = isCommandMode s.
Proof. unfold onCtrlC. destruct (ctrlCShown s), v; simpl; by autorewrite with frame. Qed.

Lemma onArrowUp_isCommandMode s : isCommandMode (onArrowUp v s) = isCommandMode s.
Proof. unfold onArrowUp. destruct (_ && _); by autorewrite with frame. Qed.

Lemma onArrowDown_isCommandMode s : isCommandMode (onArrowDown v s) = isCommandMode s.
Proof. unfold onArrowDown. destruct (_ && _); by autorewrite with frame. Qed.

Lemma onTab_isCommandMode s : isCommandMode (onTab v s) = isCommandMode s.
Proof.
  unfold onTab, takeSelection. destruct (hasSelection s); [|done].
  autorewrite with frame. simpl.
  destruct (_ !! _); simpl; by autorewrite with frame.
Qed.

(** A backspace in Word mode stays in Word mode. *)
Lemma onBackspace_word s s' :
  isCommandMode s = false → onBackspace v pool s = Some s' → isCommandMode s' = false.
Proof.
  intros Hm. unfold onBackspace. destruct (0 <? _)%nat; [|by intros [= <-]].
  simpl. autorewrite with frame. rewrite Hm. simpl.
  destruct (negb _); simpl.
  - destruct (releaseLetter _ _ _) as [used|]; simpl; [|done].
    intros [= <-]. destruct (_ || _); simpl; autorewrite with frame;
      rewrite ?Hm; simpl; by autorewrite with frame.
  - intros [= <-]. destruct (_ || _); simpl; autorewrite with frame;
      rewrite ?Hm; simpl; by autorewrite with frame.
Qed.

(** A backspace in Command mode drops the last character; the editor
    stays in Command mode unless the buffer is then empty or no longer
    starts with the prefix. *)
Lemma onBackspace_command s :
  isCommandMode s = true → input s ≠ "" →
  ∃ s', onBackspace v pool s = Some s'
    ∧ input s' = Js.sliceInit (input s)
    ∧ isCommandMode s' =
        negb (String.eqb (Js.sliceInit (input s)) ""
              || negb (Js.startsWith (Js.sliceInit (input s)) "/"))
    ∧ usedIndices s' = usedIndices s
    ∧ selectedIndex s' = 0.
Proof.
  intros Hm Hne. unfold onBackspace.
  assert ((0 <? String.length (input s))%nat = true) as ->.
  { apply Nat.ltb_lt. destruct (input s); [done|simpl; lia]. }
  simpl. autorewrite with frame. rewrite Hm. simpl.
  destruct (_ || _); simpl; autorewrite with frame; simpl.
  - eexists. split; [done|]. simpl. by autorewrite with frame.
  - rewrite Hm. eexists. split; [done|].
    autorewrite with frame. simpl. by autorewrite with frame.
Qed.

(** A typed character switches to Command mode exactly when it is the
    prefix and the buffer is empty. *)
Lemma onChar_isCommandMode char s :
  isCommandMode s = false →
  (isCommandMode (onChar v pool char s) = true ↔ char = "/" ∧ input s = "").
Proof.
  intros Hm. unfold onChar.
  destruct (String.eqb_spec char "/") as [->|Hc];
    destruct (String.eqb_spec (input s) "") as [Hi|Hi]; simpl;
    autorewrite with frame; simpl; rewrite ?Hm.
  1: done.
  all: try destruct (Js.testLetter char);
    try destruct (isLetterAvailable char pool (usedIndices s));
    simpl; rewrite ?Hm; split; try done; by intros [? ?].
Qed.

(** The prefix typed after a Word-mode buffer is not a letter: nothing
    changes. *)
Lemma onChar_slash_word s :
  isCommandMode s = false → input s ≠ "" → onChar v pool "/" s = s.
Proof.
  intros Hm Hi. unfold onChar. apply String.eqb_neq in Hi. by rewrite Hi, Hm.
Qed.

End Mode.

(** C4. In a session, (1) a key switches the editor from Word to Command
    mode exactly when the buffer is empty and the key is the prefix "/";
    (2) "/" typed in Word mode after a non-empty buffer changes neither the
    buffer nor the mode nor the consumed set (nor the selection); (3) after
    a backspace the editor is in Word mode exactly when the buffer is empty
    or does not start with "/": from Command mode, where the backspace drops
    the last character, it returns to Word mode in just these cases, and
    from Word mode it stays there. *)
Theorem mode_transitions v pool keys s :
  run v pool keys = Some s → resolved s = None →
  (isCommandMode s = false →
   ∀ key s', handleKey v pool key s = Some s' →
     (isCommandMode s' = true ↔ key = "/" ∧ input s = ""))
  ∧ (isCommandMode s = false → input s ≠ "" →
     ∃ s', handleKey v pool "/" s = Some s'
       ∧ input s' = input s ∧ isCommandMode s' = false
       ∧ usedIndices s' = usedIndices s ∧ selectedIndex s' = selectedIndex s)
  ∧ (∀ key, key = KEY_DEL ∨ key = KEY_BS →
     ∃ s', handleKey v pool key s = Some s'
       ∧ (isCommandMode s = true → input s' = Js.sliceInit (input s))
       ∧ (isCommandMode s = false → isCommandMode s' = false)
       ∧ (isCommandMode s' = false ↔
          input s' = "" ∨ Js.startsWith (input s') "/" = false)).
Proof.
  intros Hrun Hr.
  destruct (run_consistent v pool keys) as (s0 & Hrun0 & [Hp Hmenu]).
  rewrite Hrun in Hrun0. injection Hrun0 as <-.
  destruct (resetCtrlC_fields v s) as (Ei & Em & Es & Ef & Eu & _).
  split; [|split].
  - (* only the prefix on an empty buffer enters Command mode *)
    intros Hw key s' Hk. split.
    + intros Hm.
      destruct (handleKey_cases v pool key s)
        as [[-> E]|[[-> E]|[[-> E]|[[-> E]|[[Hkey E]|[[Hkey E]|[[-> E]|[Hkey E]]]]]]]];
        rewrite E in Hk.
      * injection Hk as <-. rewrite onCtrlC_isCommandMode in Hm. congruence.
      * injection Hk as <-. rewrite onArrowUp_isCommandMode, Em in Hm. congruence.
      * injection Hk as <-. rewrite onArrowDown_isCommandMode, Em in Hm. congruence.
      * injection Hk as <-. rewrite onTab_isCommandMode, Em in Hm. congruence.
      * injection Hk as <-.
        destruct (onEnter_resolved v (resetCtrlC v s)) as [_ E2].
        rewrite E2, Em in Hm. congruence.
      * apply onBackspace_word in Hk; [congruence|]. by rewrite Em.
      * injection Hk as <-. simpl in Hm. done.
      * injection Hk as <-.
        apply onChar_isCommandMode in Hm as [? ?]; [|by rewrite Em]. by rewrite <- Ei.
    + intros [-> Hi].
      rewrite handleKey_char in Hk by reflexivity. injection Hk as <-.
      apply onChar_isCommandMode; [by rewrite Em|]. by rewrite Ei.
  - (* the prefix after a Word-mode buffer *)
    intros Hm Hi. rewrite handleKey_char by reflexivity.
    rewrite onChar_slash_word by (by rewrite ?Em, ?Ei).
    eexists. split; [done|]. by rewrite Ei, Em, Eu, Es.
  - (* backspace *)
    intros key Hkey. rewrite (handleKey_backspace v pool key s Hkey).
    destruct (isCommandMode s) eqn:Hm.
    + destruct (cmd_live s Hmenu Hm Hr) as [[r Hslash]%JsFacts.startsWith_slash _].
      destruct (onBackspace_command v pool (resetCtrlC v s))
        as (s' & Hs' & Hi' & Hm' & _).
      { by rewrite Em. }
      { by rewrite Ei, Hslash. }
      exists s'. rewrite Ei in Hi', Hm'.
      split; [done|]. split; [done|]. split; [done|].
      rewrite Hm', Hi'.
      destruct (String.eqb_spec (Js.sliceInit (input s)) "") as [->|Hne]; simpl.
      * split; [by left|done].
      * destruct (Js.startsWith (Js.sliceInit (input s)) "/"); simpl.
        -- split; [done|]. by intros [?|?].
        -- split; [by right|done].
    + destruct (onBackspace_consistent v pool (resetCtrlC v s))
        as (s' & Hs' & [Hp' _] & _).
      { split; [by apply resetCtrlC_pool_ok|by apply resetCtrlC_menu_ok]. }
      { by rewrite resetCtrlC_resolved. }
      assert (isCommandMode s' = false) as Hm'.
      { eapply onBackspace_word; [|exact Hs']. by rewrite Em. }
      exists s'. split; [done|]. split; [done|]. split; [done|].
      split; [|done]. intros _. right.
      by apply allUpper_not_slash, (word_upper pool s' Hp').
Qed.

Lemma mode_transitions_witness :
  ∃ s, run Current (letterPool "carte") ["c"; "a"] = Some s ∧ resolved s = None
    ∧ (isCommandMode s = false →
       ∀ key s', handleKey Current (letterPool "carte") key s = Some s' →
         (isCommandMode s' = true ↔ key = "/" ∧ input s = ""))
    ∧ (isCommandMode s = false → input s ≠ "" →
       ∃ s', handleKey Current (letterPool "carte") "/" s = Some s'
         ∧ input s' = input s ∧ isCommandMode s' = false
         ∧ usedIndices s' = usedIndices s ∧ selectedIndex s' = selectedIndex s)
    ∧ (∀ key, key = KEY_DEL ∨ key = KEY_BS →
       ∃ s', handleKey Current (letterPool "carte") key s = Some s'
         ∧ (isCommandMode s = true → input s' = Js.sliceInit (input s))
         ∧ (isCommandMode s = false → isCommandMode s' = false)
         ∧ (isCommandMode s' = false ↔
            input s' = "" ∨ Js.startsWith (input s') "/" = false)).
Proof.
  eexists. split; [vm_compute; reflexivity|]. split; [reflexivity|].
  apply (mode_transitions Current (letterPool "carte") ["c"; "a"]);
    [vm_compute; reflexivity|reflexivity].
Defined.

(** ** Unavailable letters *)

(** C5. In Word mode, a letter key none of whose tiles is free (no pool
    index outside the consumed set carries the letter, compared without
    case) is absorbed: the handler returns normally, and the buffer, the
    consumed set, the mode, the selection and the filtered list are
    unchanged; no resolution happens, [onUpdate] is not called, and when no
    Ctrl-C notice is pending the state is unchanged altogether. *)
Theorem unavailable_letter_ignored v pool char s :
  isCommandMode s = false →
  Js.testLetter char = true →
  (∀ i p, pool !! i = Some p → i ∉ usedIndices s →
          Js.toUpperCase p ≠ Js.toUpperCase char) →
  ∃ s', handleKey v pool char s = Some s'
    ∧ input s' = input s
    ∧ usedIndices s' = usedIndices s
    ∧ isCommandMode s' = false
    ∧ selectedIndex s' = selectedIndex s
    ∧ filteredCommands s' = filteredCommands s
    ∧ resolved s' = resolved s
    ∧ s' = resetCtrlC v s
    ∧ (ctrlCShown s = false → s' = s).
Proof.
  intros Hm Hletter Hnone.
  destruct (JsFacts.testLetter_inv char Hletter) as (c & -> & Hc).
  rewrite (handleKey_char _ _ _ _ (letter_not_control c Hc)).
  destruct (resetCtrlC_fields v s) as (Ei & Em & Es & Ef & Eu & _).
  assert (isLetterAvailable (String c "") pool (usedIndices s) = None) as Havail.
  { apply isLetterAvailable_None. intros i Hi Hfree.
    apply lookup_lt_is_Some in Hi as [p Hp]. unfold letterAt. rewrite Hp. simpl.
    by apply (Hnone i p). }
  assert (onChar v pool (String c "") (resetCtrlC v s) = resetCtrlC v s) as ->.
  { unfold onChar. rewrite (letter_not_slash c Hc), Em, Hm, Eu, Havail. simpl.
    by rewrite Hc. }
  eexists. split; [done|].
  rewrite Ei, Eu, Em, Es, Ef, resetCtrlC_resolved.
  repeat split; try done.
  intros Hshown. unfold resetCtrlC. by rewrite Hshown.
Qed.

Lemma unavailable_letter_ignored_witness :
  ∃ s', handleKey Current (letterPool "CARTE") "Z" initial = Some s'
    ∧ input s' = input initial
    ∧ usedIndices s' = usedIndices initial
    ∧ isCommandMode s' = false
    ∧ selectedIndex s' = selectedIndex initial
    ∧ filteredCommands s' = filteredCommands initial
    ∧ resolved s' = resolved initial
    ∧ s' = resetCtrlC Current initial
    ∧ (ctrlCShown initial = false → s' = initial).
Proof.
  apply (unavailable_letter_ignored Current (letterPool "CARTE") "Z" initial);
    [reflexivity|reflexivity|].
  intros i p Hp _.
  do 5 (destruct i as [|i]; [injection Hp as <-; discriminate|]).
  discriminate Hp.
Defined.

(** ** Selection: Tab, Enter and the arrows *)

Lemma selectedCommand_Some s cmd :
  selectedCommand s = Some cmd ↔
  isCommandMode s = true
  ∧ 0 ≤ selectedIndex s < Z.of_nat (length (filteredCommands s))
  ∧ filteredCommands s !! Z.to_nat (selectedIndex s) = Some cmd.
Proof.
  unfold selectedCommand, hasSelection. split.
  - destruct (isCommandMode s); [|done]. simpl.
    destruct (Z.leb_spec 0 (selectedIndex s)); [|done]. simpl.
    destruct (Z.ltb_spec (selectedIndex s) (Z.of_nat (length (filteredCommands s))));
      [|done].
    intros Hcmd. repeat split; done || lia.
  - intros (-> & [H0 Hlt] & Hcmd). simpl.
    apply Z.leb_le in H0. apply Z.ltb_lt in Hlt. by rewrite H0, Hlt.
Qed.

Lemma selectedCommand_hasSelection s cmd :
  selectedCommand s = Some cmd →
  hasSelection s = true ∧ filteredCommands s !! Z.to_nat (selectedIndex s) = Some cmd.
Proof. unfold selectedCommand. by destruct (hasSelection s). Qed.

Lemma selectedCommand_resetCtrlC v s : selectedCommand (resetCtrlC v s) = selectedCommand s.
Proof.
  destruct (resetCtrlC_fields v s) as (Ei & Em & Es & Ef & _).
  unfold selectedCommand, hasSelection. by rewrite Em, Es, Ef.
Qed.

Lemma onTab_selected v s cmd :
  selectedCommand s = Some cmd →
  input (onTab v s) = name cmd ∧ selectedIndex (onTab v s) = 0
  ∧ isCommandMode (onTab v s) = true.
Proof.
  intros Hsel. pose proof Hsel as (Hm & _ & _)%selectedCommand_Some.
  apply selectedCommand_hasSelection in Hsel as [Hhas Hcmd].
  unfold onTab. rewrite Hhas.
  rewrite (takeSelection_input (clearMenu v s) cmd) by (by autorewrite with frame).
  autorewrite with frame. simpl. by autorewrite with frame.
Qed.

Lemma onEnter_selected v s cmd :
  selectedCommand s = Some cmd → input (onEnter v s) = name cmd.
Proof.
  intros [Hhas Hcmd]%selectedCommand_hasSelection.
  unfold onEnter. rewrite Hhas, (takeSelection_input s cmd Hcmd).
  simpl. by autorewrite with frame.
Qed.

(** C8. In Command mode, Tab with the selection index within the filtered
    list replaces the buffer with the name of the entry at that index.  In
    particular, when the buffer is "/h" and the selection is where typing
    left it (index 0, with the filtered list that of the buffer), Tab
    replaces the buffer with exactly "/help"; so does the session "/", "h",
    Tab. *)
Theorem tab_completes_selection v pool s cmd :
  selectedCommand s = Some cmd →
  (∃ s', handleKey v pool KEY_TAB s = Some s'
     ∧ input s' = name cmd ∧ isCommandMode s' = true
     ∧ (input s = "/h" → selectedIndex s = 0 →
        filteredCommands s = getFilteredCommands s → input s' = "/help"))
  ∧ (∃ s3, run v pool ["/"; "h"; KEY_TAB] = Some s3 ∧ input s3 = "/help").
Proof.
  intros Hsel. split.
  - rewrite handleKey_tab. eexists. split; [done|].
    rewrite <- (selectedCommand_resetCtrlC v) in Hsel.
    destruct (onTab_selected v _ cmd Hsel) as (Hi & _ & Hm).
    split; [done|]. split; [done|].
    intros Hbuf Hzero Hlist. rewrite Hi.
    rewrite selectedCommand_resetCtrlC in Hsel.
    apply selectedCommand_Some in Hsel as (Hmode & _ & Hcmd).
    rewrite Hzero, Hlist in Hcmd. unfold getFilteredCommands in Hcmd.
    rewrite Hmode, Hbuf in Hcmd. by injection Hcmd as <-.
  - destruct v; eexists; (split; [vm_compute; reflexivity|reflexivity]).
Qed.

Lemma tab_completes_selection_witness :
  let s :=
    {| input := "/h"; isCommandMode := true; selectedIndex := 1;
       filteredCommands :=
         [ {| name := "/help"; desc := "Show all commands" |};
           {| name := "/hint"; desc := "Get a hint" |} ];
       menuVisible := true; renderedMenuLines := 2; usedIndices := [];
       ctrlCShown := false; resolved := None; effects := [] |} in
  (∃ s', handleKey Current [] KEY_TAB s = Some s'
     ∧ input s' = "/hint" ∧ isCommandMode s' = true
     ∧ (input s = "/h" → selectedIndex s = 0 →
        filteredCommands s = getFilteredCommands s → input s' = "/help"))
  ∧ (∃ s3, run Current [] ["/"; "h"; KEY_TAB] = Some s3 ∧ input s3 = "/help").
Proof.
  intros s.
  apply (tab_completes_selection Current [] s {| name := "/hint"; desc := "Get a hint" |}).
  reflexivity.
Defined.

(** C9. In a session, Enter resolves with a flag that is the mode the
    editor was in.  When the editor is in Command mode and the selection
    index lies within the filtered list, the buffer is first replaced with
    the name of the selected command, and the editor resolves with that
    buffer and the flag true. *)
Theorem enter_takes_selection v pool keys s enter :
  run v pool keys = Some s → resolved s = None →
  enter = KEY_CR ∨ enter = KEY_LF →
  ∃ s', handleKey v pool enter s = Some s'
    ∧ (∃ str, resolved s' = Some (str, isCommandMode s))
    ∧ (∀ cmd, selectedCommand s = Some cmd →
         input s' = name cmd ∧ resolved s' = Some (name cmd, true)).
Proof.
  intros Hrun Hr Henter.
  destruct (run_consistent v pool keys) as (s0 & Hrun0 & [_ Hmenu]).
  rewrite Hrun in Hrun0. injection Hrun0 as <-.
  rewrite (handleKey_enter v pool enter s Henter).
  destruct (resetCtrlC_fields v s) as (Ei & Em & Es & Ef & _).
  destruct (onEnter_resolved v (resetCtrlC v s)) as [E1 E2]. rewrite Em in E1, E2.
  eexists. split; [done|]. split; [by eauto|].
  intros cmd Hsel. pose proof Hsel as (Hm & _ & Hcmd)%selectedCommand_Some.
  rewrite <- (selectedCommand_resetCtrlC v) in Hsel.
  pose proof (onEnter_selected v _ cmd Hsel) as Hi.
  split; [done|]. rewrite E1, Hi, Hm.
  rewrite COMMANDS_lower; [done|].
  apply (filtered_sub s Hmenu). by eapply list_elem_of_lookup_2.
Qed.

Lemma enter_takes_selection_witness :
  ∃ s, run Legacy [] ["/"; "h"; KEY_DOWN] = Some s ∧ resolved s = None
    ∧ selectedCommand s = Some {| name := "/hint"; desc := "Get a hint" |}
    ∧ ∃ s', handleKey Legacy [] KEY_CR s = Some s'
        ∧ (∃ str, resolved s' = Some (str, isCommandMode s))
        ∧ (∀ cmd, selectedCommand s = Some cmd →
             input s' = name cmd ∧ resolved s' = Some (name cmd, true)).
Proof.
  eexists. split; [vm_compute; reflexivity|]. split; [reflexivity|].
  split; [reflexivity|].
  apply (enter_takes_selection Legacy [] ["/"; "h"; KEY_DOWN]);
    [vm_compute; reflexivity|reflexivity|left; reflexivity].
Defined.

Section Selection.
Context (v : revision) (pool : list string).

Lemma onCtrlC_input s : input (onCtrlC v s) = input s.
Proof. unfold onCtrlC. destruct (ctrlCShown s), v; simpl; by autorewrite with frame. Qed.

Lemma onArrowUp_input s : input (onArrowUp v s) = input s.
Proof. unfold onArrowUp. destruct (_ && _); by autorewrite with frame. Qed.

Lemma onArrowDown_input s : input (onArrowDown v s) = input s.
Proof. unfold onArrowDown. destruct (_ && _); by autorewrite with frame. Qed.

Lemma onTab_changed s : onTab v s = s ∨ selectedIndex (onTab v s) = 0.
Proof.
  unfold onTab. destruct (hasSelection s); [right|by left].
  by autorewrite with frame.
Qed.

Lemma onBackspace_changed s s' :
  onBackspace v pool s = Some s' → s' = s ∨ selectedIndex s' = 0.
Proof.
  unfold onBackspace. destruct (0 <? _)%nat; [|intros [= <-]; by left].
  intros H. right. revert H. simpl.
  destruct (negb _ && negb _); simpl.
  - destruct (releaseLetter _ _ _) as [used|]; simpl; [|done].
    intros [= <-].
    repeat match goal with |- context [if ?b then _ else _] => destruct b end;
      simpl; autorewrite with frame; simpl; by autorewrite with frame.
  - intros [= <-].
    repeat match goal with |- context [if ?b then _ else _] => destruct b end;
      simpl; autorewrite with frame; simpl; by autorewrite with frame.
Qed.

(** A typed character that changes the buffer leaves the selection at 0;
    in Word mode that is where it already is. *)
Lemma onChar_changed char s :
  (isCommandMode s = false → selectedIndex s = 0) →
  onChar v pool char s = s ∨ selectedIndex (onChar v pool char s) = 0.
Proof.
  intros Hword. unfold onChar.
  destruct (_ && _); [right; by autorewrite with frame|].
  destruct (isCommandMode s) eqn:Hm; [right; by autorewrite with frame|].
  destruct (Js.testLetter char); [|by left].
  destruct (isLetterAvailable _ _ _); [right|by left]. simpl. by apply Hword.
Qed.

(** The arrows, in Command mode over a non-empty list, move the selection
    by one with wraparound. *)
Lemma onArrowUp_selectedIndex s :
  isCommandMode s = true → filteredCommands s ≠ [] →
  0 ≤ selectedIndex s < Z.of_nat (length (filteredCommands s)) →
  selectedIndex (onArrowUp v s)
  = (selectedIndex s - 1) `mod` Z.of_nat (length (filteredCommands s)).
Proof.
  intros Hm Hne Hsel. unfold onArrowUp. rewrite Hm.
  destruct (Z.ltb_spec 0 (Z.of_nat (length (filteredCommands s)))); [|lia].
  simpl. autorewrite with frame. simpl.
  destruct (Z.leb_spec (selectedIndex s) 0).
  - replace (selectedIndex s) with 0 by lia.
    apply (Z.mod_unique_pos _ _ (-1)); lia.
  - symmetry. apply Z.mod_small. lia.
Qed.

Lemma onArrowDown_selectedIndex s :
  isCommandMode s = true → filteredCommands s ≠ [] →
  0 ≤ selectedIndex s < Z.of_nat (length (filteredCommands s)) →
  selectedIndex (onArrowDown v s)
  = (selectedIndex s + 1) `mod` Z.of_nat (length (filteredCommands s)).
Proof.
  intros Hm Hne Hsel. unfold onArrowDown. rewrite Hm.
  destruct (Z.ltb_spec 0 (Z.of_nat (length (filteredCommands s)))); [|lia].
  simpl. autorewrite with frame. simpl.
  destruct (selectedIndex s >=? Z.of_nat (length (filteredCommands s)) - 1) eqn:E.
  - replace (selectedIndex s + 1) with (Z.of_nat (length (filteredCommands s))) by lia.
    symmetry. apply Z_mod_same_full.
  - symmetry. apply Z.mod_small. lia.
Qed.

End Selection.

(** C10. After every processed keystroke of a session, whenever the filtered
    list is non-empty the selection index lies within it.  Every key other
    than Enter that changes the buffer (a typed character, backspace, Tab,
    also Escape) leaves the selection at 0, and the arrows, in Command mode
    over a non-empty list, move it by one modulo the length of the list,
    which they leave as it is. *)
Theorem selection_within_filtered_list v pool keys s :
  run v pool keys = Some s →
  (filteredCommands s ≠ [] →
   0 ≤ selectedIndex s < Z.of_nat (length (filteredCommands s)))
  ∧ (resolved s = None →
     ∀ key s', handleKey v pool key s = Some s' →
       (key ≠ KEY_CR → key ≠ KEY_LF → input s' ≠ input s → selectedIndex s' = 0)
       ∧ (isCommandMode s = true → filteredCommands s ≠ [] →
          (key = KEY_UP →
           selectedIndex s'
           = (selectedIndex s - 1) `mod` Z.of_nat (length (filteredCommands s)))
          ∧ (key = KEY_DOWN →
             selectedIndex s'
             = (selectedIndex s + 1) `mod` Z.of_nat (length (filteredCommands s)))
          ∧ (key = KEY_UP ∨ key = KEY_DOWN → filteredCommands s' = filteredCommands s))).
Proof.
  intros Hrun.
  destruct (run_consistent v pool keys) as (s0 & Hrun0 & [Hp Hmenu]).
  rewrite Hrun in Hrun0. injection Hrun0 as <-.
  split; [apply (sel_bound s Hmenu)|].
  intros Hr key s' Hk.
  destruct (resetCtrlC_fields v s) as (Ei & Em & Es & Ef & Eu & _).
  split.
  - intros Hcr Hlf Hchanged.
    destruct (handleKey_cases v pool key s)
      as [[-> E]|[[-> E]|[[-> E]|[[-> E]|[[Hkey E]|[[Hkey E]|[[-> E]|[Hkey E]]]]]]]];
      rewrite E in Hk.
    + injection Hk as <-. by rewrite onCtrlC_input in Hchanged.
    + injection Hk as <-. by rewrite onArrowUp_input, Ei in Hchanged.
    + injection Hk as <-. by rewrite onArrowDown_input, Ei in Hchanged.
    + injection Hk as <-.
      destruct (onTab_changed v (resetCtrlC v s)) as [E'|E']; [|done].
      by rewrite E', Ei in Hchanged.
    + by destruct Hkey.
    + apply (onBackspace_changed v pool) in Hk as [->|Hk]; [|done].
      by rewrite Ei in Hchanged.
    + by injection Hk as <-.
    + injection Hk as <-.
      destruct (onChar_changed v pool key (resetCtrlC v s)) as [E'|E']; [| |done].
      * rewrite Em, Es. intros Hm. by apply (word_menu s Hmenu).
      * by rewrite E', Ei in Hchanged.
  - intros Hm Hne.
    pose proof (sel_bound s Hmenu Hne) as Hsel.
    destruct (cmd_live s Hmenu Hm Hr) as [_ Hlive].
    split; [|split].
    + intros ->. rewrite handleKey_up in Hk. injection Hk as <-.
      rewrite onArrowUp_selectedIndex; rewrite ?Em, ?Es, ?Ef; done.
    + intros ->. rewrite handleKey_down in Hk. injection Hk as <-.
      rewrite onArrowDown_selectedIndex; rewrite ?Em, ?Es, ?Ef; done.
    + assert ((0 <? Z.of_nat (length (filteredCommands s))) = true) as Hlen.
      { apply Z.ltb_lt. destruct (filteredCommands s); [done|simpl; lia]. }
      intros [-> | ->].
      * rewrite handleKey_up in Hk. injection Hk as <-.
        unfold onArrowUp. rewrite Em, Ef, Hm, Hlen. simpl.
        autorewrite with frame. rewrite Hlive.
        apply getFilteredCommands_ext; simpl; done.
      * rewrite handleKey_down in Hk. injection Hk as <-.
        unfold onArrowDown. rewrite Em, Ef, Hm, Hlen. simpl.
        autorewrite with frame. rewrite Hlive.
        apply getFilteredCommands_ext; simpl; done.
Qed.

Lemma selection_within_filtered_list_witness :
  ∃ s, run Current [] ["/"; "h"; KEY_DOWN] = Some s
    ∧ selectedIndex s = 1
    ∧ (filteredCommands s ≠ [] →
       0 ≤ selectedIndex s < Z.of_nat (length (filteredCommands s)))
    ∧ (resolved s = None →
       ∀ key s', handleKey Current [] key s = Some s' →
         (key ≠ KEY_CR → key ≠ KEY_LF → input s' ≠ input s → selectedIndex s' = 0)
         ∧ (isCommandMode s = true → filteredCommands s ≠ [] →
            (key = KEY_UP →
             selectedIndex s'
             = (selectedIndex s - 1) `mod` Z.of_nat (length (filteredCommands s)))
            ∧ (key = KEY_DOWN →
               selectedIndex s'
               = (selectedIndex s + 1) `mod` Z.of_nat (length (filteredCommands s)))
            ∧ (key = KEY_UP ∨ key = KEY_DOWN →
               filteredCommands s' = filteredCommands s))).
Proof.
  eexists. split; [vm_compute; reflexivity|]. split; [reflexivity|].
  apply (selection_within_filtered_list Current [] ["/"; "h"; KEY_DOWN]).
  vm_compute; reflexivity.
Defined.

(** ** The overlay: lines drawn and lines erased *)

Section Overlay.

Lemma entriesWritten_app es1 es2 :
  entriesWritten (es1 ++ es2) = (entriesWritten es1 + entriesWritten es2)%nat.
Proof. unfold entriesWritten. by rewrite filter_app, length_app. Qed.

Lemma linesErased_app es1 es2 :
  linesErased (es1 ++ es2) = (linesErased es1 + linesErased es2)%nat.
Proof. unfold linesErased. by rewrite filter_app, length_app. Qed.

Lemma entriesWritten_eraseBelow n : entriesWritten (eraseBelow n) = 0%nat.
Proof. induction n as [|n IH]; [done|]. exact IH. Qed.

Lemma linesErased_eraseBelow n : linesErased (eraseBelow n) = n.
Proof.
  induction n as [|n IH]; [done|].
  change (eraseBelow (S n)) with ([Newline; EraseLine] ++ eraseBelow n).
  rewrite linesErased_app, IH. reflexivity.
Qed.

Lemma linesErased_cursorDown n :
  linesErased (concat (replicate n [CursorDown; EraseLine])) = n.
Proof.
  induction n as [|n IH]; [done|].
  change (concat (replicate (S n) [CursorDown; EraseLine]))
    with ([CursorDown; EraseLine] ++ concat (replicate n [CursorDown; EraseLine])).
  rewrite linesErased_app, IH. reflexivity.
Qed.

Lemma entriesWritten_entryText b cmd : entriesWritten (entryText b cmd) = 1%nat.
Proof. by destruct b. Qed.

(** The loop of [renderMenu] writes one entry per command. *)
Lemma entriesWritten_drawEntries sel cmds : ∀ i,
  entriesWritten (drawEntries i sel cmds) = length cmds.
Proof.
  induction cmds as [|cmd cmds IH]; intros i; [done|].
  change (drawEntries i sel (cmd :: cmds))
    with ([Newline; EraseLine] ++ entryText (Z.of_nat i =? sel) cmd
          ++ drawEntries (S i) sel cmds).
  rewrite !entriesWritten_app, entriesWritten_entryText, IH. reflexivity.
Qed.

(** What [renderMenu] writes *)
Lemma renderMenu_appended v s :
  appended s (renderMenu v s) =
  let cmds := getFilteredCommands s in
  match v with
  | Current =>
      (if decide (renderedMenuLines s = 0%nat) then []
       else eraseBelow (renderedMenuLines s) ++ [CursorUp (renderedMenuLines s)])
      ++ (if decide (length cmds = 0%nat) then []
          else drawEntries 0 (selectedIndex s) cmds ++ [CursorUp (length cmds)]
               ++ [CarriageReturn; EraseLine; Text WhiteBold "  › ";
                   Text Plain (input s)])
  | Legacy =>
      if decide (length cmds = 0%nat) then []
      else [SaveCursor] ++ drawEntries 0 (selectedIndex s) cmds ++ [RestoreCursor]
  end.
Proof.
  unfold appended, renderMenu, clearBelow, renderInput.
  destruct v; simpl; repeat case_decide; simpl;
    rewrite <- ?app_assoc, ?drop_app_length, ?drop_all; done.
Qed.

(** What [clearMenu] writes *)
Lemma clearMenu_appended v s :
  appended s (clearMenu v s) =
  match v with
  | Current =>
      if decide (renderedMenuLines s = 0%nat) then []
      else eraseBelow (renderedMenuLines s) ++ [CursorUp (renderedMenuLines s)]
  | Legacy =>
      if negb (menuVisible s) || bool_decide (renderedMenuLines s = 0%nat) then []
      else [SaveCursor] ++ concat (replicate (renderedMenuLines s) [CursorDown; EraseLine])
           ++ [RestoreCursor]
  end.
Proof.
  unfold appended, clearMenu, clearBelow.
  destruct v; simpl.
  - repeat case_decide; simpl; rewrite ?drop_app_length, ?drop_all; done.
  - destruct (negb _ || _); simpl;
      rewrite <- ?app_assoc, ?drop_app_length, ?drop_all; done.
Qed.

End Overlay.



Lemma renderMenu_ready_erased v a : renderedMenuLines a = 0%nat → renderMenu_ready v a.
Proof. intros H. destruct v; [done|]. by intros _. Qed.

Lemma renderMenu_ready_nonempty v a : getFilteredCommands a ≠ [] → renderMenu_ready v a.
Proof. intros H. destruct v; [done|]. by intros ?. Qed.

Lemma onBackspace_renders v pool s s' :
  menu_ok s → onBackspace v pool s = Some s' →
  input s ≠ "" → isCommandMode s' = true → rendersReady v s'.
Proof.
  intros Hmenu Hk Hi Hm'.
  pose proof (clearMenu_renderedMenuLines v _ (hidden_lines _ Hmenu)) as Hz.
  destruct (isCommandMode s) eqn:Hm.
  2: { apply onBackspace_word in Hk; [congruence|done]. }
  revert Hk. unfold onBackspace.
  assert ((0 <? String.length (input s))%nat = true) as ->.
  { apply Nat.ltb_lt. destruct (input s); [done|simpl; lia]. }
  simpl. autorewrite with frame. rewrite Hm. simpl.
  destruct (_ || _); simpl; autorewrite with frame; simpl.
  - intros [= <-]. simpl in Hm'. done.
  - rewrite Hm. intros [= <-].
    eexists. split; [done|]. by apply renderMenu_ready_erased.
Qed.

(** In a session every call of [renderMenu] is made in a state it is ready
    for: either [clearMenu] has just run or the filtered list is not
    empty. *)
Lemma renderMenu_calls_ready v pool key s s' :
  consistent pool s → resolved s = None →
  handleKey v pool key s = Some s' →
  callsRenderMenu key s s' → rendersReady v s'.
Proof.
  intros [Hp Hmenu] Hr Hk Hcall.
  destruct (resetCtrlC_fields v s) as (Ei & Em & Es & Ef & Eu & Ev & El).
  pose proof (resetCtrlC_menu_ok v s Hmenu) as Hmenu0.
  pose proof (clearMenu_renderedMenuLines v _ (hidden_lines _ Hmenu0)) as Hz.
  destruct Hcall as [(Hkey & Hm & Hne)|[(-> & Hsel)|[(Hkey & Hi & Hm')|(Hkey & Hc)]]].
  - (* arrows *)
    assert ((0 <? Z.of_nat (length (filteredCommands s))) = true) as Hlen.
    { apply Z.ltb_lt. destruct (filteredCommands s); [done|simpl; lia]. }
    destruct (cmd_live s Hmenu Hm Hr) as [_ Hlive].
    destruct Hkey as [-> | ->].
    + rewrite handleKey_up in Hk. injection Hk as <-.
      unfold onArrowUp. rewrite Em, Ef, Hm, Hlen. simpl.
      eexists. split; [done|]. apply renderMenu_ready_nonempty.
      rewrite (getFilteredCommands_ext _ s) by (simpl; done). by rewrite <- Hlive.
    + rewrite handleKey_down in Hk. injection Hk as <-.
      unfold onArrowDown. rewrite Em, Ef, Hm, Hlen. simpl.
      eexists. split; [done|]. apply renderMenu_ready_nonempty.
      rewrite (getFilteredCommands_ext _ s) by (simpl; done). by rewrite <- Hlive.
  - (* Tab *)
    rewrite handleKey_tab in Hk. injection Hk as <-.
    assert (hasSelection (resetCtrlC v s) = true) as Hsel0
      by (unfold hasSelection; by rewrite Em, Es, Ef).
    unfold onTab. rewrite Hsel0.
    eexists. split; [done|]. apply renderMenu_ready_erased.
    unfold takeSelection. autorewrite with frame.
    by destruct (_ !! _).
  - (* backspace *)
    rewrite (handleKey_backspace v pool key s Hkey) in Hk.
    apply (onBackspace_renders v pool (resetCtrlC v s)); [done|done| |done].
    by rewrite Ei.
  - (* typed characters *)
    rewrite (handleKey_char v pool key s Hkey) in Hk. injection Hk as <-.
    unfold onChar. destruct Hc as [[-> Hi]|Hm].
    + rewrite Ei, Hi. simpl.
      eexists. split; [done|]. apply renderMenu_ready_nonempty.
      by rewrite getFilteredCommands_slash.
    + destruct (_ && _).
      * eexists. split; [done|]. apply renderMenu_ready_nonempty.
        by rewrite getFilteredCommands_slash.
      * rewrite Em, Hm.
        eexists. split; [done|]. by apply renderMenu_ready_erased.
Qed.

(** * Further properties of the editor and of its caller *)

(** ** The pool tracker: first fit *)

Lemma isLetterAvailable_from_least rest : ∀ i u used idx,
  isLetterAvailable_from i u rest used = Some idx →
  ∀ k p, rest !! k = Some p → (i + k < idx)%nat →
    ((i + k)%nat) ∈ used ∨ Js.toUpperCase p ≠ u.
Proof.
  induction rest as [|q rest IH]; intros i u used idx; simpl; [done|].
  destruct (negb (Js.has i used) && String.eqb (Js.toUpperCase q) u) eqn:E.
  - intros [= <-] k p _ Hk. lia.
  - intros H [|k] p Hp Hk.
    + simpl in Hp. injection Hp as ->. rewrite Nat.add_0_r.
      apply andb_false_iff in E as [E|E].
      * left. apply negb_false_iff in E. unfold Js.has in E.
        by apply bool_decide_eq_true in E.
      * right. by apply String.eqb_neq in E.
    + simpl in Hp. replace (i + S k)%nat with (S i + k)%nat by lia.
      apply (IH (S i) u used idx H k p Hp). lia.
Qed.

(** X1. [isLetterAvailable] is first fit: it returns the smallest index of
    the pool that is not consumed and carries the letter (compared without
    case), and it returns nothing exactly when there is no such index. *)
Theorem isLetterAvailable_first_fit pool letter used :
  match isLetterAvailable letter pool used with
  | Some idx =>
      (idx < length pool)%nat ∧ (idx ∉ used)
      ∧ letterAt pool idx = Js.toUpperCase letter
      ∧ ∀ j, (j < idx)%nat → j ∈ used ∨ letterAt pool j ≠ Js.toUpperCase letter
  | None =>
      ∀ i, (i < length pool)%nat → i ∉ used → letterAt pool i ≠ Js.toUpperCase letter
  end.
Proof.
  destruct (isLetterAvailable letter pool used) as [idx|] eqn:E.
  - destruct (isLetterAvailable_Some pool letter used idx E) as (Hlt & Hfree & Hl).
    repeat split; try done.
    intros j Hj. assert (j < length pool)%nat as Hjl by lia.
    apply lookup_lt_is_Some in Hjl as [p Hp].
    unfold letterAt. rewrite Hp. simpl.
    apply (isLetterAvailable_from_least pool 0 _ used idx E j p Hp). lia.
  - by apply isLetterAvailable_None.
Qed.

(** ** Sessions never throw *)

(** A backspace on a non-empty Word-mode buffer whose last character is not
    the prefix: the outcome is that of the release loop. *)
Lemma onBackspace_word_step v pool s :
  isCommandMode s = false → input s ≠ "" → Js.lastChar (input s) ≠ "/" →
  match releaseLetter pool (Js.toUpperCase (Js.lastChar (input s))) (usedIndices s) with
  | None => onBackspace v pool s = None
  | Some used =>
      ∃ s', onBackspace v pool s = Some s'
        ∧ input s' = Js.sliceInit (input s) ∧ usedIndices s' = used
        ∧ isCommandMode s' = false ∧ selectedIndex s' = 0
        ∧ resolved s' = resolved s
  end.
Proof.
  intros Hm Hne Hlast. unfold onBackspace.
  assert ((0 <? String.length (input s))%nat = true) as ->.
  { apply Nat.ltb_lt. destruct (input s); [done|simpl; lia]. }
  apply String.eqb_neq in Hlast.
  simpl. autorewrite with frame. rewrite Hm, Hlast. simpl.
  destruct (String.eqb (Js.sliceInit (input s)) ""
            || negb (Js.startsWith (Js.sliceInit (input s)) "/"));
    simpl; autorewrite with frame;
    (destruct (releaseLetter _ _ _) as [used|]; simpl; [|done]);
    eexists; (split; [done|]); autorewrite with frame; rewrite ?Hm; simpl;
    by autorewrite with frame.
Qed.

(** In a session the consumed indices are indices of the pool. *)
Lemma run_used_in_pool v pool keys :
  ∃ s, run v pool keys = Some s
    ∧ Forall (λ i, (i < length pool)%nat) (usedIndices s).
Proof.
  destruct (run_consistent v pool keys) as (s & Hrun & [Hp _]).
  exists s. split; [done|]. apply (used_bound pool s Hp).
Qed.

(** X2. The backspace branch reads [pool[idx]] at every consumed index it
    visits and throws a [TypeError] when one lies outside the pool; in a
    session this never happens: whatever the pool and the keys, every key is
    handled and every consumed index is an index of the pool. *)
Theorem session_never_throws v pool keys :
  (∃ s, run v pool keys = Some s
      ∧ Forall (λ i, (i < length pool)%nat) (usedIndices s))
  ∧ (∀ s i, input s = "A" → isCommandMode s = false → usedIndices s = [i] →
            (length pool ≤ i)%nat → handleKey v pool KEY_DEL s = None).
Proof.
  split; [apply run_used_in_pool|].
  intros s i Hi Hm Hu Hout.
  rewrite handleKey_backspace by (by left).
  destruct (resetCtrlC_fields v s) as (Ei & Em & Es & Ef & Eu & _).
  pose proof (onBackspace_word_step v pool (resetCtrlC v s)) as H.
  rewrite Ei, Em, Eu, Hi, Hu in H. simpl in H.
  unfold releaseLetter in H. simpl in H.
  rewrite (lookup_ge_None_2 pool i Hout) in H. by apply H.
Qed.

(** ** The shape of the buffer *)

Lemma onEnter_input v s :
  input (onEnter v s) = match selectedCommand s with
                        | Some cmd => name cmd
                        | None => input s
                        end.
Proof.
  unfold selectedCommand, onEnter, takeSelection.
  destruct (hasSelection s) eqn:E; simpl; autorewrite with frame; [|done].
  destruct (hasSelection_lookup s E) as (_ & cmd & Hcmd). by rewrite Hcmd.
Qed.

(** The Command-mode buffer starts with the prefix, also once Enter has
    replaced it with the selected name. *)
Lemma handleKey_command_slash v pool key s s' :
  consistent pool s → resolved s = None →
  handleKey v pool key s = Some s' →
  isCommandMode s' = true → Js.startsWith (input s') "/" = true.
Proof.
  intros Hc Hr Hk Hm'.
  destruct (handleKey_consistent v pool key s Hc Hr) as (s0 & Hk0 & [_ Hmenu']).
  rewrite Hk in Hk0. injection Hk0 as <-.
  destruct (resolved s') eqn:Hr'; [|by apply (cmd_live s' Hmenu' Hm' Hr')].
  destruct Hc as [_ Hmenu].
  pose proof (resetCtrlC_resolved v s) as Hr0. rewrite Hr in Hr0.
  destruct (resetCtrlC_fields v s) as (Ei & Em & Es & Ef & _).
  destruct (handleKey_cases v pool key s)
    as [[_ E]|[[_ E]|[[_ E]|[[_ E]|[[_ E]|[[_ E]|[[_ E]|[_ E]]]]]]]];
    rewrite E in Hk.
  - injection Hk as <-. rewrite onCtrlC_resolved in Hr'. congruence.
  - injection Hk as <-. rewrite onArrowUp_resolved in Hr'. congruence.
  - injection Hk as <-. rewrite onArrowDown_resolved in Hr'. congruence.
  - injection Hk as <-. rewrite onTab_resolved in Hr'. congruence.
  - injection Hk as <-.
    destruct (onEnter_resolved v (resetCtrlC v s)) as [_ E2].
    rewrite E2, Em in Hm'. rewrite onEnter_input, selectedCommand_resetCtrlC, Ei.
    destruct (selectedCommand s) as [cmd|] eqn:Hsel.
    + apply selectedCommand_Some in Hsel as (_ & _ & Hcmd).
      apply COMMANDS_slash, (filtered_sub s Hmenu). by eapply list_elem_of_lookup_2.
    + by apply (cmd_live s Hmenu Hm' Hr).
  - apply onBackspace_resolved in Hk. congruence.
  - injection Hk as <-. rewrite onEscape_resolved in Hr'. congruence.
  - injection Hk as <-. rewrite onChar_resolved in Hr'. congruence.
Qed.

Lemma deliver_command_slash v pool keys : ∀ s s',
  consistent pool s →
  (isCommandMode s = true → Js.startsWith (input s) "/" = true) →
  deliver v pool keys s = Some s' →
  isCommandMode s' = true → Js.startsWith (input s') "/" = true.
Proof.
  induction keys as [|key keys IH]; intros s s' Hc Hs; simpl; [by intros [= <-]|].
  destruct (resolved s) eqn:Hr; [by intros [= <-]|].
  destruct (handleKey_consistent v pool key s Hc Hr) as (s1 & Hk & Hc1).
  rewrite Hk. apply IH; [done|]. by apply (handleKey_command_slash v pool key s).
Qed.

(** The consumed set is no larger than the pool. *)
Lemma used_length_le_pool (pool : list string) (used : list nat) :
  NoDup used → Forall (λ i, (i < length pool)%nat) used →
  (length used ≤ length pool)%nat.
Proof.
  intros Hnd Hb.
  assert (used ⊆+ seq 0 (length pool)) as Hsub.
  { apply NoDup_submseteq; [done|]. intros i Hi. apply elem_of_seq.
    rewrite Forall_forall in Hb. specialize (Hb i Hi). lia. }
  apply submseteq_length in Hsub. by rewrite length_seq in Hsub.
Qed.

(** X3. The shape of the buffer at every point of a session.  In Word mode
    it holds upper-case ASCII letters only and is no longer than the pool;
    in Command mode it starts with "/" and no tile is consumed. *)
Theorem buffer_shape v pool keys :
  ∃ s, run v pool keys = Some s
    ∧ (isCommandMode s = false →
       allUpper (input s) = true ∧ (String.length (input s) ≤ length pool)%nat)
    ∧ (isCommandMode s = true →
       Js.startsWith (input s) "/" = true ∧ usedIndices s = []).
Proof.
  destruct (run_consistent v pool keys) as (s & Hrun & [Hp Hmenu]).
  exists s. split; [done|]. split.
  - intros Hm. split; [by apply (word_upper pool s Hp)|].
    rewrite <- (word_size pool s Hp Hm).
    apply used_length_le_pool; [apply (used_nodup pool s Hp)|apply (used_bound pool s Hp)].
  - intros Hm. split; [|by apply (cmd_used pool s Hp)].
    apply (deliver_command_slash v pool keys initial s); try done.
    apply initial_consistent.
Qed.

(** ** What the caller does with a submission *)

Lemma toLowerCase_upper_letter c :
  Js.isAsciiLetter c = true → Ascii.eqb (Js.toUpperCase_char c) c = true →
  Js.toUpperCase_char (Js.toLowerCase_char c) = c
  ∧ Js.toLowerCase_char (Js.toLowerCase_char c) = Js.toLowerCase_char c
  ∧ Js.toLowerCase_char c ≠ "/"%char.
Proof.
  destruct c as [[] [] [] [] [] [] [] []]; intros H1 H2;
    try discriminate H1; try discriminate H2; repeat split; discriminate.
Qed.

(** Lower-casing a Word-mode buffer loses nothing: upper-casing gives it
    back. *)
Lemma toLowerCase_allUpper s :
  allUpper s = true →
  Js.toUpperCase (Js.toLowerCase s) = s
  ∧ Js.toLowerCase (Js.toLowerCase s) = Js.toLowerCase s
  ∧ Js.startsWith (Js.toLowerCase s) "/" = false.
Proof.
  induction s as [|c r IH]; [done|]. intros H. simpl in H.
  apply andb_true_iff in H as [[H1 H2]%andb_true_iff Hr].
  destruct (IH Hr) as (IH1 & IH2 & _).
  destruct (toLowerCase_upper_letter c H1 H2) as (E1 & E2 & E3).
  change (Js.toLowerCase (String c r))
    with (String (Js.toLowerCase_char c) (Js.toLowerCase r)).
  change (Js.toLowerCase (String (Js.toLowerCase_char c) (Js.toLowerCase r)))
    with (String (Js.toLowerCase_char (Js.toLowerCase_char c))
            (Js.toLowerCase (Js.toLowerCase r))).
  change (Js.toUpperCase (String (Js.toLowerCase_char c) (Js.toLowerCase r)))
    with (String (Js.toUpperCase_char (Js.toLowerCase_char c))
            (Js.toUpperCase (Js.toLowerCase r))).
  rewrite E1, E2, IH1, IH2. split; [done|]. split; [done|].
  rewrite JsFacts.startsWith_cons.
  destruct (Ascii.ascii_dec "/" (Js.toLowerCase_char c)) as [E|]; [|done].
  by destruct E3.
Qed.

Lemma toLowerCase_nil s : Js.toLowerCase s = "" ↔ s = "".
Proof. by destruct s. Qed.

Lemma toLowerCase_slash s :
  Js.startsWith s "/" = true → Js.startsWith (Js.toLowerCase s) "/" = true.
Proof. intros [r ->]%JsFacts.startsWith_slash. apply JsFacts.startsWith_slash. by eexists. Qed.

(** The letters of distinct tiles are letters of the pool, each tile counted
    once. *)
Lemma consumedLetters_submseteq pool (used : list nat) :
  NoDup used → Forall (λ i, (i < length pool)%nat) used →
  consumedLetters pool used ⊆+ (Js.toUpperCase <$> pool).
Proof.
  intros Hnd Hb.
  assert (used ⊆+ seq 0 (length pool)) as Hsub.
  { apply NoDup_submseteq; [done|]. intros i Hi. apply elem_of_seq.
    rewrite Forall_forall in Hb. specialize (Hb i Hi). lia. }
  assert (Js.toUpperCase <$> pool = letterAt pool <$> seq 0 (length pool)) as ->.
  { apply list_eq. intros i. rewrite !list_lookup_fmap.
    destruct (pool !! i) as [p|] eqn:Hp; simpl.
    - rewrite (lookup_seq_lt _ _ _ (lookup_lt_Some _ _ _ Hp)). simpl.
      unfold letterAt. by rewrite Hp.
    - by rewrite (lookup_seq_ge _ _ _ (proj1 (lookup_ge_None _ _) Hp)). }
  unfold consumedLetters. by apply fmap_submseteq.
Qed.

Lemma switchCommand_is_command cmd :
  switchCommand cmd ≠ AskAgain ∧ ∀ g, switchCommand cmd ≠ SubmitGuess g.
Proof.
  unfold switchCommand.
  repeat match goal with |- context [if ?b then _ else _] => destruct b end; done.
Qed.

(** What a session has resolved with, in terms of its final state. *)
Lemma run_resolution v pool keys s answer isCommand :
  run v pool keys = Some s → resolved s = Some (answer, isCommand) →
  answer = Js.toLowerCase (input s) ∧ isCommand = isCommandMode s.
Proof.
  intros Hrun Hr.
  assert (resolution_ok s) as Hok.
  { eapply deliver_resolution; [|exact Hrun]. by intros r. }
  specialize (Hok _ Hr). by injection Hok as -> ->.
Qed.

(** X4. A guess the client posts is spelled with tiles of the pool, each
    tile used at most once: in lower case it is a non-empty string whose
    letters, in upper case, form a sub-multiset of the upper-cased pool. *)
Theorem guess_spelled_from_pool v pool keys g :
  played v pool keys = Some (SubmitGuess g) →
  g ≠ ""
  ∧ Js.toLowerCase g = g
  ∧ allUpper (Js.toUpperCase g) = true
  ∧ split (Js.toUpperCase g) ⊆+ (Js.toUpperCase <$> pool).
Proof.
  unfold played. intros H.
  destruct (run v pool keys) as [s|] eqn:Hrun; [|done].
  destruct (resolved s) as [[answer isCommand]|] eqn:Hr; [|done].
  injection H as H.
  destruct (run_resolution v pool keys s answer isCommand Hrun Hr) as [-> ->].
  destruct (run_consistent v pool keys) as (s0 & Hrun0 & [Hp _]).
  rewrite Hrun in Hrun0. injection Hrun0 as <-.
  unfold dispatch in H.
  destruct (String.eqb_spec (Js.toLowerCase (input s)) "") as [|Hne]; [done|].
  destruct (isCommandMode s) eqn:Hm.
  { simpl in H. by destruct (switchCommand_is_command
                               (commandWord (Js.toLowerCase (input s)))) as [_ Hno],
                          (Hno g). }
  pose proof (word_upper pool s Hp Hm) as Hup.
  destruct (toLowerCase_allUpper _ Hup) as (E1 & E2 & E3).
  rewrite E3 in H. simpl in H. injection H as <-.
  split; [done|]. split; [done|]. rewrite E1. split; [done|].
  rewrite (word_letters pool s Hp Hm).
  apply consumedLetters_submseteq;
    [apply (used_nodup pool s Hp)|apply (used_bound pool s Hp)].
Qed.

Lemma guess_spelled_from_pool_witness :
  played Current (letterPool "tca") ["c"; "a"; "t"; KEY_CR] = Some (SubmitGuess "cat")
  ∧ "cat" ≠ ""
  ∧ Js.toLowerCase "cat" = "cat"
  ∧ allUpper (Js.toUpperCase "cat") = true
  ∧ split (Js.toUpperCase "cat") ⊆+ (Js.toUpperCase <$> letterPool "tca").
Proof.
  assert (played Current (letterPool "tca") ["c"; "a"; "t"; KEY_CR]
          = Some (SubmitGuess "cat")) as H by (vm_compute; reflexivity).
  split; [exact H|].
  exact (guess_spelled_from_pool Current (letterPool "tca") ["c"; "a"; "t"; KEY_CR] "cat" H).
Defined.

(** X5. Submissions keep to their mode.  What the editor resolves with in
    Word mode is never run as a command: it is posted as a guess, unless it
    is empty, in which case the caller asks again.  What it resolves with in
    Command mode is never posted as a guess: the caller runs the command
    named by what stands between the prefix and the first space. *)
Theorem submissions_keep_to_their_mode v pool keys s answer isCommand :
  run v pool keys = Some s → resolved s = Some (answer, isCommand) →
  (isCommand = false →
   (answer = "" ∧ dispatch answer isCommand = AskAgain)
   ∨ (answer ≠ "" ∧ dispatch answer isCommand = SubmitGuess answer))
  ∧ (isCommand = true →
     answer ≠ ""
     ∧ dispatch answer isCommand = switchCommand (beforeSpace (sliceFrom1 answer))
     ∧ dispatch answer isCommand ≠ AskAgain
     ∧ ∀ g, dispatch answer isCommand ≠ SubmitGuess g).
Proof.
  intros Hrun Hr.
  destruct (run_resolution v pool keys s answer isCommand Hrun Hr) as [-> ->].
  destruct (run_consistent v pool keys) as (s0 & Hrun0 & [Hp _]).
  rewrite Hrun in Hrun0. injection Hrun0 as <-.
  split; intros Hm.
  - unfold dispatch. rewrite Hm.
    destruct (String.eqb_spec (Js.toLowerCase (input s)) "") as [E|Hne]; [by left|].
    right. split; [done|].
    destruct (toLowerCase_allUpper _ (word_upper pool s Hp Hm)) as (_ & _ & E3).
    by rewrite E3.
  - assert (Js.startsWith (Js.toLowerCase (input s)) "/" = true) as Hslash.
    { apply toLowerCase_slash.
      apply (deliver_command_slash v pool keys initial s); try done.
      apply initial_consistent. }
    assert (Js.toLowerCase (input s) ≠ "") as Hne.
    { intros E. by rewrite E in Hslash. }
    assert (dispatch (Js.toLowerCase (input s)) (isCommandMode s)
            = switchCommand (beforeSpace (sliceFrom1 (Js.toLowerCase (input s))))) as E.
    { unfold dispatch, commandWord. apply String.eqb_neq in Hne.
      by rewrite Hne, Hm, Hslash. }
    rewrite E. split; [done|]. split; [done|]. apply switchCommand_is_command.
Qed.

Lemma submissions_keep_to_their_mode_witness :
  ∃ s, run Current [] ["/"; "H"; "i"; " "; "x"; KEY_CR] = Some s
    ∧ resolved s = Some ("/hi x", true)
    ∧ dispatch "/hi x" true = UnknownCommand "hi"
    ∧ (true = false →
       ("/hi x" = "" ∧ dispatch "/hi x" true = AskAgain)
       ∨ ("/hi x" ≠ "" ∧ dispatch "/hi x" true = SubmitGuess "/hi x"))
    ∧ (true = true →
       "/hi x" ≠ ""
       ∧ dispatch "/hi x" true = switchCommand (beforeSpace (sliceFrom1 "/hi x"))
       ∧ dispatch "/hi x" true ≠ AskAgain
       ∧ ∀ g, dispatch "/hi x" true ≠ SubmitGuess g).
Proof.
  eexists. split; [vm_compute; reflexivity|]. split; [reflexivity|].
  split; [reflexivity|].
  eapply (submissions_keep_to_their_mode Current [] ["/"; "H"; "i"; " "; "x"; KEY_CR]);
    [vm_compute; reflexivity|reflexivity].
Defined.

(** Enter as the last key of a session that has not resolved yet. *)
Lemma run_then_enter v pool keys s enter :
  run v pool keys = Some s → resolved s = None →
  enter = KEY_CR ∨ enter = KEY_LF →
  run v pool (keys ++ [enter]) = Some (onEnter v (resetCtrlC v s)).
Proof.
  intros Hrun Hr Henter. unfold run in *.
  destruct (deliver_app v pool keys [enter] initial s Hrun) as [E|[_ Hres]]; [|done].
  rewrite E. simpl. by rewrite Hr, (handleKey_enter v pool enter s Henter).
Qed.

Lemma COMMANDS_actions c :
  c ∈ COMMANDS →
  dispatch (name c) true = switchCommand (sliceFrom1 (name c))
  ∧ ∀ w, dispatch (name c) true ≠ UnknownCommand w.
Proof.
  unfold COMMANDS. rewrite !elem_of_cons, elem_of_nil.
  intros [->|[->|[->|[->|[->|[]]]]]]; split; done.
Qed.

(** X6. Enter in Command mode.  While at least one registry name starts
    with the buffer, Enter runs the command of the selected entry, always
    one the caller knows (never "Unknown command"), whether or not the menu
    is on screen.  When no name starts with the buffer and the buffer holds
    ASCII characters only, the caller gets the buffer in lower case and runs
    the command named by its first word. *)
Theorem enter_runs_selected_command v pool keys s enter :
  run v pool keys = Some s → resolved s = None → isCommandMode s = true →
  enter = KEY_CR ∨ enter = KEY_LF →
  ∃ a, played v pool (keys ++ [enter]) = Some a
    ∧ (filteredCommands s ≠ [] →
       ∃ cmd, selectedCommand s = Some cmd ∧ cmd ∈ COMMANDS
         ∧ a = switchCommand (sliceFrom1 (name cmd))
         ∧ ∀ w, a ≠ UnknownCommand w)
    ∧ (filteredCommands s = [] → Js.isAscii (input s) = true →
       a = switchCommand (beforeSpace (sliceFrom1 (Js.toLowerCase (input s))))).
Proof.
  intros Hrun Hr Hm Henter.
  destruct (run_consistent v pool keys) as (s0 & Hrun0 & [Hp Hmenu]).
  rewrite Hrun in Hrun0. injection Hrun0 as <-.
  destruct (resetCtrlC_fields v s) as (Ei & Em & Es & Ef & _).
  destruct (onEnter_resolved v (resetCtrlC v s)) as [E1 _]. rewrite Em, Hm in E1.
  rewrite onEnter_input, selectedCommand_resetCtrlC, Ei in E1.
  unfold played. rewrite (run_then_enter v pool keys s enter Hrun Hr Henter), E1.
  eexists. split; [done|]. split.
  - intros Hne. destruct (sel_bound s Hmenu Hne) as [H0 Hlt].
    assert (is_Some (filteredCommands s !! Z.to_nat (selectedIndex s))) as [cmd Hcmd]
      by (apply lookup_lt_is_Some; lia).
    assert (selectedCommand s = Some cmd) as Hsel by (by apply selectedCommand_Some).
    assert (cmd ∈ COMMANDS) as Hin
      by (apply (filtered_sub s Hmenu); by eapply list_elem_of_lookup_2).
    exists cmd. rewrite Hsel, (COMMANDS_lower cmd Hin).
    destruct (COMMANDS_actions cmd Hin) as [Ea Hknown]. rewrite Ea in Hknown.
    by rewrite Ea.
  - intros Hnil _.
    assert (selectedCommand s = None) as ->.
    { unfold selectedCommand. rewrite Hnil. by destruct (hasSelection s). }
    destruct (cmd_live s Hmenu Hm Hr) as [Hslash _].
    pose proof (toLowerCase_slash _ Hslash) as Hslash'.
    unfold dispatch, commandWord. rewrite Hslash'.
    destruct (String.eqb_spec (Js.toLowerCase (input s)) "") as [E|_]; [|done].
    by rewrite E in Hslash'.
Qed.

Lemma enter_runs_selected_command_witness :
  ∃ s, run Legacy [] ["/"; "s"; KEY_CTRL_C] = Some s ∧ resolved s = None
    ∧ renderedMenuLines s = 0%nat
    ∧ ∃ a, played Legacy [] (["/"; "s"; KEY_CTRL_C] ++ [KEY_CR]) = Some a
      ∧ a = ShuffleLetters
      ∧ (filteredCommands s ≠ [] →
         ∃ cmd, selectedCommand s = Some cmd ∧ cmd ∈ COMMANDS
           ∧ a = switchCommand (sliceFrom1 (name cmd))
           ∧ ∀ w, a ≠ UnknownCommand w)
      ∧ (filteredCommands s = [] → Js.isAscii (input s) = true →
         a = switchCommand (beforeSpace (sliceFrom1 (Js.toLowerCase (input s))))).
Proof.
  eexists. split; [vm_compute; reflexivity|]. split; [reflexivity|].
  split; [reflexivity|].
  edestruct (enter_runs_selected_command Legacy [] ["/"; "s"; KEY_CTRL_C])
    as (a & Ha & H1 & H2);
    [vm_compute; reflexivity|reflexivity|reflexivity|left; reflexivity|].
  exists a. split; [exact Ha|]. split; [|split; [exact H1|exact H2]].
  vm_compute in Ha. by injection Ha as <-.
Defined.

(** ** Typing and deleting *)

Lemma sliceInit_snoc s c : Js.sliceInit (s +:+ String c "") = s.
Proof.
  induction s as [|d r IH]; [done|].
  rewrite JsFacts.app_cons. simpl. rewrite IH. by destruct r.
Qed.

Lemma lastChar_snoc s c : Js.lastChar (s +:+ String c "") = String c "".
Proof.
  induction s as [|d r IH]; [done|].
  rewrite JsFacts.app_cons. simpl. rewrite IH. by destruct r.
Qed.

Lemma length_sliceInit s : String.length (Js.sliceInit s) = (String.length s - 1)%nat.
Proof.
  destruct (decide (s = "")) as [->|Hne]; [done|].
  destruct (JsFacts.snoc_inv s Hne) as (c & _ & Hs).
  rewrite Hs at 2. rewrite JsFacts.length_app. simpl. lia.
Qed.

Lemma toUpperCase_letter c :
  Js.isAsciiLetter c = true →
  Js.toUpperCase_char (Js.toUpperCase_char c) = Js.toUpperCase_char c
  ∧ Js.toUpperCase_char c ≠ "/"%char.
Proof.
  destruct c as [[] [] [] [] [] [] [] []]; intros H; try discriminate H; split; done.
Qed.

(** The release loop stops at the first consumed index, in the order of
    consumption, whose tile carries the letter. *)
Lemma findConsumed_first pool u (used : list nat) :
  Forall (λ i, (i < length pool)%nat) used →
  u ∈ consumedLetters pool used →
  ∃ l1 idx l2, used = l1 ++ idx :: l2 ∧ letterAt pool idx = u
    ∧ Forall (λ i, letterAt pool i ≠ u) l1
    ∧ findConsumed pool u used = Some (Some idx).
Proof.
  induction used as [|i used IH]; simpl; [by intros _ ?%elem_of_nil|].
  intros [Hi Hused]%Forall_cons Hin.
  apply lookup_lt_is_Some in Hi as [p Hp]. rewrite Hp.
  assert (letterAt pool i = Js.toUpperCase p) as Hl by (unfold letterAt; by rewrite Hp).
  destruct (String.eqb_spec (Js.toUpperCase p) u) as [E|E].
  - exists [], i, used. by rewrite Hl.
  - apply elem_of_cons in Hin as [Hu|Hin]; [congruence|].
    destruct (IH Hused Hin) as (l1 & idx & l2 & -> & Hidx & Hl1 & Hf).
    exists (i :: l1), idx, l2. repeat split; try done.
    apply Forall_cons. split; [congruence|done].
Qed.

(** Typing an available letter in Word mode. *)
Lemma onChar_letter_step v pool c s idx :
  isCommandMode s = false → Js.isAsciiLetter c = true →
  isLetterAvailable (String c "") pool (usedIndices s) = Some idx →
  input (onChar v pool (String c "") s) = input s +:+ String (Js.toUpperCase_char c) ""
  ∧ usedIndices (onChar v pool (String c "") s) = usedIndices s ++ [idx]
  ∧ isCommandMode (onChar v pool (String c "") s) = false.
Proof.
  intros Hm Hc Hav. unfold onChar.
  rewrite (letter_not_slash c Hc), Hm, Hav. simpl. rewrite Hc. simpl.
  destruct (isLetterAvailable_Some pool _ _ _ Hav) as (_ & Hfree & _).
  by rewrite (JsFacts.add_fresh idx _ Hfree).
Qed.

(** X7. Typing a letter and deleting it.  In Word mode, an available letter
    is appended in upper case and consumes the tile [isLetterAvailable]
    returns; a backspace then restores the buffer and the letters consumed,
    up to order.  The tile it frees is the one of that letter consumed
    earliest, which need not be the one just consumed. *)
Theorem letter_then_backspace v pool keys s c idx bs :
  run v pool keys = Some s → resolved s = None → isCommandMode s = false →
  Js.isAsciiLetter c = true →
  isLetterAvailable (String c "") pool (usedIndices s) = Some idx →
  bs = KEY_DEL ∨ bs = KEY_BS →
  ∃ s1 s2,
    handleKey v pool (String c "") s = Some s1
    ∧ handleKey v pool bs s1 = Some s2
    ∧ input s1 = input s +:+ String (Js.toUpperCase_char c) ""
    ∧ usedIndices s1 = usedIndices s ++ [idx]
    ∧ input s2 = input s
    ∧ isCommandMode s2 = false
    ∧ consumedLetters pool (usedIndices s2) ≡ₚ consumedLetters pool (usedIndices s)
    ∧ ∃ l1 j l2,
        usedIndices s ++ [idx] = l1 ++ j :: l2
        ∧ letterAt pool j = String (Js.toUpperCase_char c) ""
        ∧ Forall (λ i, letterAt pool i ≠ String (Js.toUpperCase_char c) "") l1
        ∧ usedIndices s2 = l1 ++ l2.
Proof.
  intros Hrun Hr Hm Hc Hav Hbs.
  destruct (run_consistent v pool keys) as (s0 & Hrun0 & Hcons).
  rewrite Hrun in Hrun0. injection Hrun0 as <-.
  destruct (resetCtrlC_fields v s) as (Ei & Em & Es & Ef & Eu & _).
  (* the letter *)
  pose proof (handleKey_char v pool _ s (letter_not_control c Hc)) as Hk1.
  destruct (onChar_letter_step v pool c (resetCtrlC v s) idx) as (Hi1 & Hu1 & Hm1);
    [by rewrite Em|done|by rewrite Eu|].
  rewrite Ei in Hi1. rewrite Eu in Hu1.
  set (s1 := onChar v pool (String c "") (resetCtrlC v s)) in *.
  destruct (handleKey_consistent v pool (String c "") s Hcons Hr)
    as (s1' & Hk1' & [Hp1 Hmenu1]).
  rewrite Hk1 in Hk1'. injection Hk1' as <-.
  assert (resolved s1 = None) as Hr1
    by (unfold s1; by rewrite onChar_resolved, resetCtrlC_resolved).
  (* the backspace *)
  destruct (resetCtrlC_fields v s1) as (Ei1 & Em1 & _ & _ & Eu1 & _).
  destruct (toUpperCase_letter c Hc) as [Hidem Hns].
  pose proof (onBackspace_word_step v pool (resetCtrlC v s1)) as Hstep.
  rewrite Ei1, Em1, Eu1, Hi1, Hu1, lastChar_snoc, sliceInit_snoc in Hstep.
  simpl in Hstep. rewrite Hidem in Hstep.
  assert (String (Js.toUpperCase_char c) "" ∈ consumedLetters pool (usedIndices s ++ [idx]))
    as Hin.
  { rewrite <- Hu1, <- (word_letters pool s1 Hp1 Hm1), Hi1, split_app.
    apply elem_of_app. right. left. }
  pose proof (used_bound pool s1 Hp1) as Hb1. rewrite Hu1 in Hb1.
  pose proof (used_nodup pool s1 Hp1) as Hnd1. rewrite Hu1 in Hnd1.
  destruct (findConsumed_first pool _ _ Hb1 Hin) as (l1 & j & l2 & Hsplit & Hj & Hl1 & Hf).
  unfold releaseLetter in Hstep. rewrite Hf in Hstep.
  rewrite Hsplit in Hstep. rewrite Hsplit in Hnd1.
  rewrite (JsFacts.delete_middle j l1 l2 Hnd1) in Hstep.
  destruct Hstep as (s2 & Hk2 & Hi2 & Hu2 & Hm2 & _).
  { done. }
  { destruct (input s); done. }
  { intros [= E]. done. }
  exists s1, s2. split; [done|].
  split; [by rewrite (handleKey_backspace v pool bs s1 Hbs)|].
  split; [done|]. split; [done|]. split; [done|]. split; [done|]. split.
  - destruct Hcons as [Hp _]. pose proof (word_letters pool s Hp Hm) as Hl.
    assert (consumedLetters pool (usedIndices s ++ [idx])
            = consumedLetters pool (usedIndices s) ++ [String (Js.toUpperCase_char c) ""])
      as E1.
    { unfold consumedLetters. rewrite map_app. simpl. f_equal. f_equal.
      destruct (isLetterAvailable_Some pool _ _ _ Hav) as (_ & _ & ->). done. }
    rewrite Hsplit in E1. unfold consumedLetters in *.
    rewrite map_app in E1. simpl in E1. rewrite Hj in E1.
    rewrite Hu2, map_app.
    apply (Permutation_cons_inv (a := String (Js.toUpperCase_char c) "")).
    rewrite Permutation_middle, E1. by rewrite <- Permutation_cons_append.
  - by exists l1, j, l2.
Qed.

Lemma letter_then_backspace_witness :
  ∃ s, run Current (letterPool "aab") ["a"] = Some s ∧ resolved s = None
    ∧ ∃ s1 s2,
        handleKey Current (letterPool "aab") "a" s = Some s1
        ∧ handleKey Current (letterPool "aab") KEY_DEL s1 = Some s2
        ∧ input s1 = input s +:+ "A"
        ∧ usedIndices s1 = usedIndices s ++ [1%nat]
        ∧ input s2 = input s
        ∧ isCommandMode s2 = false
        ∧ consumedLetters (letterPool "aab") (usedIndices s2)
          ≡ₚ consumedLetters (letterPool "aab") (usedIndices s)
        ∧ ∃ l1 j l2,
            usedIndices s ++ [1%nat] = l1 ++ j :: l2
            ∧ letterAt (letterPool "aab") j = "A"
            ∧ Forall (λ i, letterAt (letterPool "aab") i ≠ "A") l1
            ∧ usedIndices s2 = l1 ++ l2.
Proof.
  eexists. split; [vm_compute; reflexivity|]. split; [reflexivity|].
  eapply (letter_then_backspace Current (letterPool "aab") ["a"] _ "a"%char 1 KEY_DEL);
    [vm_compute; reflexivity|reflexivity|reflexivity|reflexivity|reflexivity
    |left; reflexivity].
Defined.

(** ** Ctrl-C *)

Section CtrlC.
Context (v : revision) (pool : list string).

Lemma onArrowUp_ctrlCShown s : ctrlCShown (onArrowUp v s) = ctrlCShown s.
Proof. unfold onArrowUp. destruct (_ && _); by autorewrite with frame. Qed.

Lemma onArrowDown_ctrlCShown s : ctrlCShown (onArrowDown v s) = ctrlCShown s.
Proof. unfold onArrowDown. destruct (_ && _); by autorewrite with frame. Qed.

Lemma onTab_ctrlCShown s : ctrlCShown (onTab v s) = ctrlCShown s.
Proof.
  unfold onTab, takeSelection. destruct (hasSelection s); [|done].
  autorewrite with frame. simpl.
  destruct (_ !! _); simpl; by autorewrite with frame.
Qed.

Lemma onEnter_ctrlCShown s : ctrlCShown (onEnter v s) = ctrlCShown s.
Proof.
  unfold onEnter, takeSelection. simpl. autorewrite with frame.
  destruct (hasSelection s); [|done]. by destruct (_ !! _).
Qed.

Lemma onEscape_ctrlCShown s : ctrlCShown (onEscape v s) = ctrlCShown s.
Proof. unfold onEscape. simpl. by autorewrite with frame. Qed.

Lemma onChar_ctrlCShown char s : ctrlCShown (onChar v pool char s) = ctrlCShown s.
Proof.
  unfold onChar.
  destruct (_ && _); [by autorewrite with frame|].
  destruct (isCommandMode s); [autorewrite with frame; simpl; by autorewrite with frame|].
  destruct (Js.testLetter char); [|done].
  by destruct (isLetterAvailable char pool (usedIndices s)).
Qed.

Lemma onBackspace_ctrlCShown s s' :
  onBackspace v pool s = Some s' → ctrlCShown s' = ctrlCShown s.
Proof.
  unfold onBackspace. destruct (0 <? _)%nat; [|by intros [= <-]].
  simpl. destruct (negb _ && negb _); simpl.
  - destruct (releaseLetter _ _ _) as [used|]; simpl; [|done].
    intros [= <-].
    repeat match goal with |- context [if ?b then _ else _] => destruct b end;
      simpl; autorewrite with frame; simpl; by autorewrite with frame.
  - intros [= <-].
    repeat match goal with |- context [if ?b then _ else _] => destruct b end;
      simpl; autorewrite with frame; simpl; by autorewrite with frame.
Qed.

Lemma resetCtrlC_ctrlCShown s : ctrlCShown (resetCtrlC v s) = false.
Proof. unfold resetCtrlC. destruct (ctrlCShown s) eqn:E; [by destruct v|done]. Qed.

Lemma onCtrlC_fields s :
  input (onCtrlC v s) = input s
  ∧ isCommandMode (onCtrlC v s) = isCommandMode s
  ∧ selectedIndex (onCtrlC v s) = selectedIndex s
  ∧ filteredCommands (onCtrlC v s) = filteredCommands s
  ∧ usedIndices (onCtrlC v s) = usedIndices s
  ∧ resolved (onCtrlC v s) = resolved s
  ∧ ctrlCShown (onCtrlC v s) = true.
Proof.
  unfold onCtrlC. destruct (ctrlCShown s) eqn:E; [done|].
  destruct v; simpl; by autorewrite with frame.
Qed.

End CtrlC.

(** X8. Ctrl-C never ends the session and loses nothing: in any state it
    leaves the buffer, the mode, the selection, the filtered list and the
    consumed set as they are and does not resolve.  It raises the notice
    flag; a second Ctrl-C in a row changes nothing at all and writes
    nothing; any other key lowers the flag again. *)
Theorem ctrl_c_keeps_the_session v pool s :
  ∃ s1, handleKey v pool KEY_CTRL_C s = Some s1
    ∧ input s1 = input s
    ∧ isCommandMode s1 = isCommandMode s
    ∧ selectedIndex s1 = selectedIndex s
    ∧ filteredCommands s1 = filteredCommands s
    ∧ usedIndices s1 = usedIndices s
    ∧ resolved s1 = resolved s
    ∧ ctrlCShown s1 = true
    ∧ handleKey v pool KEY_CTRL_C s1 = Some s1
    ∧ ∀ key s2, key ≠ KEY_CTRL_C → handleKey v pool key s1 = Some s2 →
        ctrlCShown s2 = false.
Proof.
  assert (∀ s0, handleKey v pool KEY_CTRL_C s0 = Some (onCtrlC v s0)) as Hc by done.
  destruct (onCtrlC_fields v s) as (Ei & Em & Es & Ef & Eu & Er & Ec).
  exists (onCtrlC v s). rewrite Hc.
  repeat (split; [done|]). split.
  - rewrite Hc. f_equal. generalize (onCtrlC v s), Ec. intros s1 H1.
    unfold onCtrlC. by rewrite H1.
  - intros key s2 Hkey Hk.
    pose proof (resetCtrlC_ctrlCShown v (onCtrlC v s)) as Hreset.
    destruct (handleKey_cases v pool key (onCtrlC v s))
      as [[-> E]|[[_ E]|[[_ E]|[[_ E]|[[_ E]|[[_ E]|[[_ E]|[_ E]]]]]]]];
      [done|rewrite E in Hk..].
    + injection Hk as <-. by rewrite onArrowUp_ctrlCShown.
    + injection Hk as <-. by rewrite onArrowDown_ctrlCShown.
    + injection Hk as <-. by rewrite onTab_ctrlCShown.
    + injection Hk as <-. by rewrite onEnter_ctrlCShown.
    + apply onBackspace_ctrlCShown in Hk. congruence.
    + injection Hk as <-. by rewrite onEscape_ctrlCShown.
    + injection Hk as <-. by rewrite onChar_ctrlCShown.
Qed.

(** ** Chunks that are no key of the editor *)

(** X9. A chunk of input that is none of the keys [handleKey] tests for (a
    digit, punctuation, several characters pasted at once, an escape
    sequence such as the right arrow): in Word mode it changes nothing
    unless it is one letter or the prefix on an empty buffer; in Command
    mode it is appended to the buffer as it is, the selection returns to 0
    and the menu is filtered by the new buffer. *)
Theorem chunks_in_word_and_command_mode v pool key s :
  isControlKey key = false →
  (isCommandMode s = false → Js.testLetter key = false →
   ¬ (key = "/" ∧ input s = "") →
   handleKey v pool key s = Some (resetCtrlC v s))
  ∧ (isCommandMode s = true → input s ≠ "" →
     ∃ s', handleKey v pool key s = Some s'
       ∧ input s' = input s +:+ key
       ∧ isCommandMode s' = true
       ∧ selectedIndex s' = 0
       ∧ usedIndices s' = usedIndices s
       ∧ filteredCommands s'
         = filter (λ c, Is_true (Js.startsWith (name c) (input s +:+ key))) COMMANDS).
Proof.
  intros Hkey. rewrite (handleKey_char v pool key s Hkey).
  destruct (resetCtrlC_fields v s) as (Ei & Em & Es & Ef & Eu & _).
  split.
  - intros Hm Hletter Hstart. f_equal. unfold onChar.
    rewrite Ei, Em, Hm, Hletter.
    destruct (String.eqb_spec key "/") as [->|_]; [|done].
    destruct (String.eqb_spec (input s) "") as [E|_]; [|done].
    by destruct Hstart.
  - intros Hm Hne. unfold onChar. rewrite Ei, Em, Hm.
    apply String.eqb_neq in Hne. rewrite Hne, andb_false_r.
    eexists. split; [done|]. autorewrite with frame. simpl.
    autorewrite with frame. rewrite Ei, Eu, Em, Hm. simpl.
    repeat (split; [done|]).
    unfold getFilteredCommands. simpl. autorewrite with frame.
    by rewrite Em, Hm.
Qed.

Lemma chunks_in_word_and_command_mode_witness :
  (isCommandMode initial = false → Js.testLetter "ab" = false →
   ¬ ("ab" = "/" ∧ input initial = "") →
   handleKey Current ["A"; "B"] "ab" initial = Some (resetCtrlC Current initial))
  ∧ (isCommandMode initial = true → input initial ≠ "" →
     ∃ s', handleKey Current ["A"; "B"] "ab" initial = Some s'
       ∧ input s' = input initial +:+ "ab"
       ∧ isCommandMode s' = true
       ∧ selectedIndex s' = 0
       ∧ usedIndices s' = usedIndices initial
       ∧ filteredCommands s'
         = filter (λ c, Is_true (Js.startsWith (name c) (input initial +:+ "ab")))
             COMMANDS).
Proof.
  apply (chunks_in_word_and_command_mode Current ["A"; "B"] "ab" initial). reflexivity.
Defined.

(** ** Deleting the whole buffer *)

(** A backspace on a non-empty buffer drops its last character and keeps the
    session consistent. *)
Lemma onBackspace_drops_last v pool s :
  consistent pool s → resolved s = None → input s ≠ "" →
  ∃ s', onBackspace v pool s = Some s' ∧ consistent pool s' ∧ resolved s' = None
    ∧ input s' = Js.sliceInit (input s).
Proof.
  intros Hc Hr Hne.
  destruct (onBackspace_consistent v pool s Hc Hr) as (s' & Hk & Hc' & Hr').
  exists s'. repeat (split; [done|]).
  destruct Hc as [Hp Hmenu].
  destruct (isCommandMode s) eqn:Hm.
  - destruct (onBackspace_command v pool s Hm Hne) as (s0 & Hk0 & Hi & _). congruence.
  - pose proof (onBackspace_word_step v pool s Hm Hne
                  (allUpper_lastChar_not_slash _ (word_upper pool s Hp Hm))) as Hstep.
    destruct (releaseLetter _ _ _); [|congruence].
    destruct Hstep as (s0 & Hk0 & Hi & _). congruence.
Qed.

Lemma deliver_backspaces v pool bs : ∀ n s,
  bs = KEY_DEL ∨ bs = KEY_BS →
  consistent pool s → resolved s = None → String.length (input s) = n →
  ∃ s', deliver v pool (replicate n bs) s = Some s' ∧ consistent pool s'
    ∧ resolved s' = None ∧ input s' = "".
Proof.
  induction n as [|n IH]; intros s Hbs Hc Hr Hlen; simpl.
  - exists s. repeat (split; [done|]). by destruct (input s).
  - rewrite Hr, (handleKey_backspace v pool bs s Hbs).
    destruct (resetCtrlC_fields v s) as (Ei & _).
    destruct (onBackspace_drops_last v pool (resetCtrlC v s))
      as (s1 & -> & Hc1 & Hr1 & Hi1).
    { destruct Hc. split; [by apply resetCtrlC_pool_ok|by apply resetCtrlC_menu_ok]. }
    { by rewrite resetCtrlC_resolved. }
    { rewrite Ei. intros E. by rewrite E in Hlen. }
    apply IH; try done. rewrite Hi1, Ei, length_sliceInit, Hlen. lia.
Qed.

(** X10. As many backspaces as the buffer has characters take the editor
    back to where it started, from any point of a session and in either
    mode: the buffer is empty, the mode is Word, no tile is consumed, and the
    selection and the filtered list are reset, as after Escape. *)
Theorem backspaces_empty_the_buffer v pool keys s bs :
  run v pool keys = Some s → resolved s = None →
  bs = KEY_DEL ∨ bs = KEY_BS →
  ∃ s', deliver v pool (replicate (String.length (input s)) bs) s = Some s'
    ∧ input s' = ""
    ∧ isCommandMode s' = false
    ∧ usedIndices s' = []
    ∧ selectedIndex s' = 0
    ∧ filteredCommands s' = []
    ∧ renderedMenuLines s' = 0%nat
    ∧ resolved s' = None.
Proof.
  intros Hrun Hr Hbs.
  destruct (run_consistent v pool keys) as (s0 & Hrun0 & Hc).
  rewrite Hrun in Hrun0. injection Hrun0 as <-.
  destruct (deliver_backspaces v pool bs _ s Hbs Hc Hr eq_refl)
    as (s' & Hd & [Hp' Hmenu'] & Hr' & Hi').
  exists s'. split; [done|]. split; [done|].
  assert (isCommandMode s' = false) as Hm'.
  { destruct (isCommandMode s') eqn:Hm; [|done].
    destruct (cmd_live s' Hmenu' Hm Hr') as [Hslash _]. by rewrite Hi' in Hslash. }
  destruct (word_menu s' Hmenu' Hm') as [Hf Hs].
  split; [done|]. split; [by apply (pool_ok_empty pool)|].
  split; [done|]. split; [done|]. split; [|done].
  destruct (lines_count s' Hmenu') as [E|E]; [done|]. by rewrite E, Hf.
Qed.

Lemma backspaces_empty_the_buffer_witness :
  ∃ s, run Legacy (letterPool "cat") ["/"; "h"; "e"] = Some s ∧ resolved s = None
    ∧ String.length (input s) = 3%nat
    ∧ ∃ s', deliver Legacy (letterPool "cat")
              (replicate (String.length (input s)) KEY_BS) s = Some s'
        ∧ input s' = ""
        ∧ isCommandMode s' = false
        ∧ usedIndices s' = []
        ∧ selectedIndex s' = 0
        ∧ filteredCommands s' = []
        ∧ renderedMenuLines s' = 0%nat
        ∧ resolved s' = None.
Proof.
  eexists. split; [vm_compute; reflexivity|]. split; [reflexivity|].
  split; [reflexivity|].
  eapply (backspaces_empty_the_buffer Legacy (letterPool "cat") ["/"; "h"; "e"]);
    [vm_compute; reflexivity|reflexivity|right; reflexivity].
Defined.

(** ** The header while the editor runs *)

Lemma updatesIn_app es1 es2 : updatesIn (es1 ++ es2) = updatesIn es1 ++ updatesIn es2.
Proof. apply omap_app. Qed.

Lemma updatesIn_eraseBelow n : updatesIn (eraseBelow n) = [].
Proof. unfold eraseBelow. by induction n. Qed.

Lemma updatesIn_eraseDown n :
  updatesIn (concat (replicate n [CursorDown; EraseLine])) = [].
Proof. by induction n. Qed.

Lemma updatesIn_drawEntries cmds : ∀ i sel, updatesIn (drawEntries i sel cmds) = [].
Proof.
  induction cmds as [|c cmds IH]; intros i sel; [done|].
  simpl. unfold entryText. destruct (_ =? _); simpl; apply IH.
Qed.

Section Updates.
Context (v : revision) (s : state).

Lemma updates_emit es :
  updatesIn es = [] → updatesIn (effects (emit es s)) = updatesIn (effects s).
Proof. intros H. simpl. by rewrite updatesIn_app, H, app_nil_r. Qed.

Lemma updates_renderInput : updatesIn (effects (renderInput s)) = updatesIn (effects s).
Proof. by apply updates_emit. Qed.

Lemma updates_clearBelow n :
  updatesIn (effects (clearBelow n s)) = updatesIn (effects s).
Proof.
  unfold clearBelow. case_decide; [done|]. apply updates_emit.
  by rewrite updatesIn_app, updatesIn_eraseBelow.
Qed.

End Updates.

Lemma updates_clearMenu v s :
  updatesIn (effects (clearMenu v s)) = updatesIn (effects s).
Proof.
  unfold clearMenu. destruct v.
  - case_decide; [done|]. simpl. apply updates_clearBelow.
  - destruct (_ || _); [done|]. simpl.
    by rewrite !updatesIn_app, updatesIn_eraseDown, !app_nil_r.
Qed.

Lemma updates_renderMenu v s :
  updatesIn (effects (renderMenu v s)) = updatesIn (effects s).
Proof.
  unfold renderMenu. destruct v; cbv zeta.
  - case_decide; simpl.
    + by rewrite updates_clearBelow.
    + rewrite !updatesIn_app, updatesIn_drawEntries, !app_nil_r.
      by rewrite updates_clearBelow.
  - case_decide; simpl; [done|].
    by rewrite !updatesIn_app, updatesIn_drawEntries, !app_nil_r.
Qed.

Lemma updates_resetCtrlC v s :
  updatesIn (effects (resetCtrlC v s)) = updatesIn (effects s).
Proof.
  unfold resetCtrlC. destruct (ctrlCShown s); [|done].
  destruct v; simpl; by rewrite !updatesIn_app, !app_nil_r.
Qed.

Lemma updates_onCtrlC v s :
  updatesIn (effects (onCtrlC v s)) = updatesIn (effects s).
Proof.
  unfold onCtrlC. destruct (negb _); [|done].
  destruct v; simpl; rewrite !updatesIn_app, ?app_nil_r; apply updates_clearMenu.
Qed.

Create Rewrite HintDb updates.

#[export] Hint Rewrite
  updatesIn_app updates_renderInput updates_clearBelow updates_clearMenu
  updates_renderMenu updates_resetCtrlC updates_onCtrlC : updates.

(** A handler that calls [onUpdate] last with its buffer and consumed set,
    or that does not call it and changes neither the consumed set nor the
    Word-mode buffer, keeps the header in step. *)
Lemma display_ok_same s s' :
  updatesIn (effects s') = updatesIn (effects s) →
  usedIndices s' = usedIndices s →
  (if isCommandMode s' then "" else input s')
    = (if isCommandMode s then "" else input s) →
  display_ok s → display_ok s'.
Proof.
  unfold display_ok. intros -> -> E.
  destruct (last _) as [[i used]|].
  - intros [-> ->]. by rewrite E.
  - intros [Hu Hi]. split; [done|]. intros Hm. rewrite Hm in E. rewrite E.
    destruct (isCommandMode s); [done|by apply Hi].
Qed.

Lemma display_ok_update s s' :
  updatesIn (effects s') = updatesIn (effects s) ++ [(input s', usedIndices s')] →
  isCommandMode s' = false →
  display_ok s'.
Proof. unfold display_ok. intros -> ->. by rewrite last_snoc. Qed.

Ltac same_display :=
  apply display_ok_same; simpl; do 2 (autorewrite with updates frame; simpl);
  rewrite ?app_nil_r; try done.

Section Display.
Context (v : revision) (pool : list string).

Lemma resetCtrlC_display_ok s : display_ok s → display_ok (resetCtrlC v s).
Proof.
  destruct (resetCtrlC_fields v s) as (Ei & Em & _ & _ & Eu & _).
  apply display_ok_same; [apply updates_resetCtrlC|done|by rewrite Ei, Em].
Qed.

Lemma onCtrlC_display_ok s : display_ok s → display_ok (onCtrlC v s).
Proof.
  destruct (onCtrlC_fields v s) as (Ei & Em & _ & _ & Eu & _).
  apply display_ok_same; [apply updates_onCtrlC|done|by rewrite Ei, Em].
Qed.

Lemma onArrowUp_display_ok s : display_ok s → display_ok (onArrowUp v s).
Proof. unfold onArrowUp. destruct (_ && _); [|done]. same_display. Qed.

Lemma onArrowDown_display_ok s : display_ok s → display_ok (onArrowDown v s).
Proof. unfold onArrowDown. destruct (_ && _); [|done]. same_display. Qed.

Lemma hasSelection_mode s : hasSelection s = true → isCommandMode s = true.
Proof. unfold hasSelection. by destruct (isCommandMode s). Qed.

Lemma takeSelection_fields s :
  isCommandMode (takeSelection s) = isCommandMode s
  ∧ usedIndices (takeSelection s) = usedIndices s
  ∧ effects (takeSelection s) = effects s.
Proof. unfold takeSelection. by destruct (_ !! _). Qed.

Lemma onTab_display_ok s : display_ok s → display_ok (onTab v s).
Proof.
  unfold onTab. destruct (hasSelection s) eqn:Hsel; [|done].
  apply hasSelection_mode in Hsel.
  destruct (takeSelection_fields (clearMenu v s)) as (Em & Eu & Ee).
  apply display_ok_same; simpl; autorewrite with updates frame; simpl.
  - by rewrite Ee, updates_clearMenu.
  - by rewrite Eu, clearMenu_usedIndices.
  - by rewrite Em, clearMenu_isCommandMode, Hsel.
Qed.

Lemma onEnter_display_ok s : display_ok s → display_ok (onEnter v s).
Proof.
  unfold onEnter. destruct (hasSelection s) eqn:Hsel.
  - apply hasSelection_mode in Hsel.
    destruct (takeSelection_fields s) as (Em & Eu & Ee).
    apply display_ok_same; simpl; autorewrite with updates frame; simpl.
    + by rewrite Ee, app_nil_r.
    + done.
    + by rewrite Em, Hsel.
  - same_display.
Qed.

Lemma onEscape_display_ok s : display_ok (onEscape v s).
Proof.
  apply (display_ok_update s); [|done].
  unfold onEscape. simpl. autorewrite with updates. simpl. by rewrite app_nil_r.
Qed.

Lemma onChar_display_ok char s : display_ok s → display_ok (onChar v pool char s).
Proof.
  intros Hd. unfold onChar.
  destruct (String.eqb char "/" && String.eqb (input s) "") eqn:Hslash.
  - apply andb_true_iff in Hslash as [_ Hi%String.eqb_eq].
    revert Hd. same_display.
    rewrite Hi. by destruct (isCommandMode s).
  - destruct (isCommandMode s) eqn:Hm.
    + revert Hd. same_display. by rewrite Hm.
    + destruct (Js.testLetter char); [|done].
      destruct (isLetterAvailable _ _ _); [|done].
      apply (display_ok_update s); [|done].
      simpl. by rewrite !updatesIn_app, app_nil_r.
Qed.

End Display.

Lemma onBackspace_display_ok v pool s s' :
  consistent pool s → resolved s = None → display_ok s →
  onBackspace v pool s = Some s' → display_ok s'.
Proof.
  intros [Hp Hmenu] Hr Hd. unfold onBackspace.
  destruct (0 <? String.length (input s))%nat eqn:Hlen; [|by intros [= <-]].
  simpl. autorewrite with frame.
  destruct (isCommandMode s) eqn:Hm; simpl.
  - destruct (cmd_live s Hmenu Hm Hr) as [Hslash _].
    destruct (sliceInit_slash (input s) Hslash) as [E|[E1 E2]].
    + rewrite E. simpl. intros [= <-]. revert Hd. same_display.
      by rewrite Hm.
    + apply String.eqb_neq in E1. rewrite E1, E2. simpl. autorewrite with frame.
      rewrite Hm. intros [= <-]. revert Hd. same_display. by rewrite Hm.
  - assert (Js.lastChar (input s) ≠ "/") as Hlast.
    { apply allUpper_lastChar_not_slash, (word_upper pool s Hp Hm). }
    apply String.eqb_neq in Hlast. rewrite Hlast. simpl.
    destruct (String.eqb (Js.sliceInit (input s)) ""
              || negb (Js.startsWith (Js.sliceInit (input s)) "/"));
      simpl; autorewrite with frame;
      (destruct (releaseLetter _ _ _) as [used|]; simpl; [|done]);
      autorewrite with frame; rewrite ?Hm; intros [= <-];
      apply (display_ok_update s); simpl; autorewrite with updates frame; simpl;
      rewrite ?app_nil_r; done.
Qed.

Lemma handleKey_display_ok v pool key s s' :
  consistent pool s → resolved s = None → display_ok s →
  handleKey v pool key s = Some s' → display_ok s'.
Proof.
  intros Hc Hr Hd.
  pose proof (resetCtrlC_display_ok v s Hd) as Hd'.
  destruct (handleKey_cases v pool key s)
    as [[_ ->]|[[_ ->]|[[_ ->]|[[_ ->]|[[_ ->]|[[_ ->]|[[_ ->]|[_ ->]]]]]]]].
  - intros [= <-]. by apply onCtrlC_display_ok.
  - intros [= <-]. by apply onArrowUp_display_ok.
  - intros [= <-]. by apply onArrowDown_display_ok.
  - intros [= <-]. by apply onTab_display_ok.
  - intros [= <-]. by apply onEnter_display_ok.
  - apply onBackspace_display_ok; [|by rewrite resetCtrlC_resolved|done].
    destruct Hc. split; [by apply resetCtrlC_pool_ok|by apply resetCtrlC_menu_ok].
  - intros [= <-]. apply onEscape_display_ok.
  - intros [= <-]. by apply onChar_display_ok.
Qed.

Lemma deliver_display_ok v pool keys : ∀ s s',
  consistent pool s → display_ok s →
  deliver v pool keys s = Some s' → display_ok s'.
Proof.
  induction keys as [|key keys IH]; intros s s' Hc Hd; simpl; [by intros [= <-]|].
  destruct (resolved s) eqn:Hr; [by intros [= <-]|].
  destruct (handleKey_consistent v pool key s Hc Hr) as (s1 & E & Hc1).
  rewrite E. apply IH; [done|]. by apply (handleKey_display_ok v pool key s).
Qed.

Lemma run_display_ok v pool keys s : run v pool keys = Some s → display_ok s.
Proof.
  apply deliver_display_ok; [apply initial_consistent|].
  unfold display_ok. by simpl.
Qed.

(** ** The tiles of the header *)

Lemma toUpperCase_char_idemp c :
  Js.toUpperCase_char (Js.toUpperCase_char c) = Js.toUpperCase_char c.
Proof. by destruct c as [[] [] [] [] [] [] [] []]; vm_compute. Qed.

Lemma letterPool_upper scramble :
  Js.toUpperCase <$> letterPool scramble = letterPool scramble.
Proof.
  unfold letterPool. induction scramble as [|c r IH]; [done|].
  simpl. f_equal; [by rewrite toUpperCase_char_idemp|exact IH].
Qed.

(** The two rows together hold one tile for each letter of the scramble, in
    order: the offset of the second row continues the indices of the
    first. *)
Lemma tileRows_all scramble used :
  (tileRows scramble used).1 ++ (tileRows scramble used).2
  = imap (λ i ch, renderLetterTileWithState ch (hasIndex used i)) (letterPool scramble).
Proof.
  unfold tileRows, letterPool. simpl. set (L := split _).
  rewrite <- (take_drop 6 L) at 3. rewrite imap_app. f_equal.
  apply imap_ext. intros i x Hx. simpl.
  apply lookup_lt_Some in Hx. rewrite length_drop in Hx.
  rewrite length_take. do 2 f_equal. lia.
Qed.

Lemma shown_has s k : display_ok s → hasIndex (shownUsed s) k = Js.has k (usedIndices s).
Proof.
  unfold display_ok, shownUsed. destruct (last _) as [[i u]|]; simpl.
  - by intros [-> _].
  - intros [-> _]. unfold Js.has. case_bool_decide as H; [|done].
    by apply elem_of_nil in H.
Qed.

Lemma shownTiles_seq scramble s :
  display_ok s →
  shownTiles scramble s
  = (λ i, {| tileLetter := letterAt (letterPool scramble) i;
             tileUsed := Js.has i (usedIndices s) |})
      <$> seq 0 (length (letterPool scramble)).
Proof.
  intros Hd. unfold shownTiles. cbv zeta. rewrite tileRows_all.
  apply list_eq. intros k. rewrite list_lookup_imap, list_lookup_fmap.
  destruct (letterPool scramble !! k) as [p|] eqn:Hp; simpl.
  - rewrite (lookup_seq_lt _ _ _ (lookup_lt_Some _ _ _ Hp)). simpl.
    unfold renderLetterTileWithState, letterAt. by rewrite Hp, shown_has.
  - by rewrite (lookup_seq_ge _ _ _ (proj1 (lookup_ge_None _ _) Hp)).
Qed.

Lemma filter_fmap_tiles {A B} (f : A → B) (P : B → Prop) `{∀ x, Decision (P x)}
    (l : list A) :
  filter P (f <$> l) = f <$> filter (λ x, P (f x)) l.
Proof.
  induction l as [|x l IH]; [done|]. rewrite fmap_cons, !filter_cons, IH.
  by destruct (decide (P (f x))).
Qed.

Lemma used_of_seq (used : list nat) n :
  NoDup used → Forall (λ i, (i < n)%nat) used →
  filter (λ i, Is_true (Js.has i used)) (seq 0 n) ≡ₚ used.
Proof.
  intros Hnd Hb. apply NoDup_Permutation; [apply NoDup_filter, NoDup_seq|done|].
  intros i. rewrite list_elem_of_filter, elem_of_seq. unfold Js.has.
  rewrite bool_decide_spec. split; [by intros [? _]|].
  intros Hi. split; [done|]. rewrite Forall_forall in Hb. specialize (Hb i Hi). lia.
Qed.

(** X11. The tiles on screen follow the editor.  For a scramble of ASCII
    characters, at every point of a session of [doPlay] the header last
    drawn (by the [onUpdate] callback, or by [doPlay] itself before the
    first call) shows one tile for each letter of the scramble, in order
    over its two rows, and draws as used exactly the tiles the editor has
    consumed: as many as the Word-mode buffer has letters, spelling that
    buffer up to order, and none in Command mode. *)
Theorem header_tiles_follow_the_editor v scramble keys s :
  Js.isAscii scramble = true →
  run v (letterPool scramble) keys = Some s →
  let tiles := shownTiles scramble s in
  tileLetter <$> tiles = letterPool scramble
  ∧ (∀ k, (tileUsed <$> tiles) !! k = Some true ↔ k ∈ usedIndices s)
  ∧ (isCommandMode s = false →
     length (filter (λ t, Is_true (tileUsed t)) tiles) = String.length (input s)
     ∧ tileLetter <$> filter (λ t, Is_true (tileUsed t)) tiles ≡ₚ split (input s))
  ∧ (isCommandMode s = true → Forall (λ t, tileUsed t = false) tiles).
Proof.
  intros _ Hrun. pose proof (run_display_ok _ _ _ _ Hrun) as Hd.
  destruct (run_consistent v (letterPool scramble) keys) as (s0 & Hrun0 & [Hp _]).
  rewrite Hrun in Hrun0. injection Hrun0 as <-.
  cbv zeta. rewrite (shownTiles_seq scramble s Hd).
  set (L := letterPool scramble) in *.
  assert (tileLetter <$>
            filter (λ t, Is_true (tileUsed t))
              ((λ i, {| tileLetter := letterAt L i;
                        tileUsed := Js.has i (usedIndices s) |}) <$> seq 0 (length L))
          ≡ₚ consumedLetters L (usedIndices s)) as Hperm.
  { rewrite filter_fmap_tiles, <- list_fmap_compose. simpl.
    unfold consumedLetters.
    change (map (letterAt L) (usedIndices s)) with (letterAt L <$> usedIndices s).
    apply fmap_Permutation, used_of_seq; [apply Hp|apply Hp]. }
  split; [|split; [|split]].
  - rewrite <- list_fmap_compose. simpl.
    etrans; [|exact (letterPool_upper scramble)]. fold L. apply list_eq. intros k. rewrite !list_lookup_fmap.
    destruct (L !! k) as [p|] eqn:Hk; simpl.
    + rewrite (lookup_seq_lt _ _ _ (lookup_lt_Some _ _ _ Hk)). simpl.
      unfold letterAt. by rewrite Hk.
    + by rewrite (lookup_seq_ge _ _ _ (proj1 (lookup_ge_None _ _) Hk)).
  - intros k. rewrite <- list_fmap_compose, list_lookup_fmap. simpl.
    pose proof (used_bound L s Hp) as Hb. rewrite Forall_forall in Hb.
    destruct (decide (k < length L)%nat) as [Hlt|Hge].
    + rewrite (lookup_seq_lt _ _ _ Hlt). simpl. unfold Js.has.
      split.
      * intros [= E]. by apply bool_decide_eq_true in E.
      * intros Hk. f_equal. by apply bool_decide_eq_true.
    + rewrite (lookup_seq_ge 0 (length L) k) by lia. simpl.
      split; [done|]. intros Hk. specialize (Hb k Hk). lia.
  - intros Hm. pose proof (word_letters L s Hp Hm) as Hw. split.
    + rewrite <- (length_fmap tileLetter), Hperm, <- Hw. apply length_split.
    + by rewrite Hperm.
  - intros Hm. rewrite (cmd_used L s Hp Hm). apply Forall_fmap, Forall_forall.
    intros i _. simpl. unfold Js.has. apply bool_decide_eq_false. apply not_elem_of_nil.
Qed.

Lemma header_tiles_follow_the_editor_witness :
  ∃ s, run Current (letterPool "stream") ["e"; "a"; "t"] = Some s
    ∧ tileUsed <$> shownTiles "stream" s = [false; true; false; true; true; false]
    ∧ let tiles := shownTiles "stream" s in
      tileLetter <$> tiles = letterPool "stream"
      ∧ (∀ k, (tileUsed <$> tiles) !! k = Some true ↔ k ∈ usedIndices s)
      ∧ (isCommandMode s = false →
         length (filter (λ t, Is_true (tileUsed t)) tiles) = String.length (input s)
         ∧ tileLetter <$> filter (λ t, Is_true (tileUsed t)) tiles ≡ₚ split (input s))
      ∧ (isCommandMode s = true → Forall (λ t, tileUsed t = false) tiles).
Proof.
  eexists. split; [vm_compute; reflexivity|]. split; [vm_compute; reflexivity|].
  eapply (header_tiles_follow_the_editor Current "stream" ["e"; "a"; "t"]);
    vm_compute; reflexivity.
Defined.

(** ** The statistics *)

Lemma increment_exact x : x < MAX_EXACT → increment x = x + 1.
Proof. unfold increment. intros H. by rewrite (proj2 (Z.ltb_lt _ _) H). Qed.

Lemma leadingWins_le l : (leadingWins l ≤ length l)%nat.
Proof. induction l as [|r l IH]; simpl; [lia|]. destruct (r_won r); lia. Qed.

Lemma streak_le log : (streak log ≤ length log)%nat.
Proof. unfold streak. rewrite <- (length_reverse log). apply leadingWins_le. Qed.

Lemma streak_snoc log r :
  streak (log ++ [r]) = if r_won r then S (streak log) else 0%nat.
Proof. unfold streak. by rewrite reverse_snoc. Qed.

Lemma prefix_snoc_cases (p log : list report) r :
  p `prefix_of` (log ++ [r]) → p `prefix_of` log ∨ p = log ++ [r].
Proof.
  intros [k Hk]. destruct k as [|y k _] using rev_ind.
  - right. by rewrite app_nil_r in Hk.
  - left. rewrite app_assoc in Hk. apply app_inj_tail in Hk as [-> _].
    by exists k.
Qed.

Lemma count_snoc {A} (P : A → Prop) `{∀ x, Decision (P x)} l x :
  length (filter P (l ++ [x]))
  = (length (filter P l) + (if decide (P x) then 1 else 0))%nat.
Proof.
  rewrite filter_app, length_app. f_equal.
  rewrite filter_cons, filter_nil. by destruct (decide (P x)).
Qed.

Lemma count_le {A} (P : A → Prop) `{∀ x, Decision (P x)} (l : list A) :
  (length (filter P l) ≤ length l)%nat.
Proof. apply length_filter. Qed.

(** The bar a win is counted in is the one [updateStats] computes. *)
Lemma solvedIn_bucket i r :
  (i < 5)%nat →
  solvedIn i r = true ↔ r_won r = true ∧ Z.min (r_attempts r - 1) 4 = Z.of_nat i.
Proof.
  intros Hi. unfold solvedIn. destruct (r_won r); simpl; [|by split; [|intros []]].
  destruct (Nat.eqb_spec i 4) as [->|Hne].
  - rewrite Z.leb_le. split; [intros; split; [done|lia]|intros [_ ?]; lia].
  - rewrite Z.eqb_eq. split; [intros; split; [done|lia]|intros [_ ?]; lia].
Qed.

(** On an array of five numbers and an index up to 4, as in [updateStats],
    [bumpElement] changes one element at most and keeps the length. *)
Lemma bumpElement_five (a : numbers) idx :
  length a = 5%nat → idx ≤ 4 →
  length (bumpElement a idx) = 5%nat
  ∧ ∀ i x, a !! i = Some (Some x) →
      bumpElement a idx !! i
      = Some (Some (if decide (Z.of_nat i = idx) then increment x else x)).
Proof.
  intros Hlen Hidx. unfold bumpElement.
  destruct (Z.ltb_spec idx 0) as [Hneg|Hpos].
  - split; [done|]. intros i x Hi. rewrite decide_False by lia. done.
  - assert ((Z.to_nat idx <? length a)%nat = true) as ->.
    { apply Nat.ltb_lt. lia. }
    cbv zeta. split; [by rewrite length_insert|].
    intros i x Hi. destruct (decide (Z.of_nat i = idx)) as [E|E].
    + assert (Z.to_nat idx = i) as -> by lia.
      rewrite list_lookup_insert_eq by (by apply lookup_lt_Some in Hi).
      by rewrite Hi.
    + rewrite list_lookup_insert_ne by lia. done.
Qed.

Lemma writeStats_writable stats σ :
  writable σ = true →
  writeStats stats σ
  = Some {| defaultDistribution := defaultDistribution σ; statsFile := Some stats;
            writable := true |}.
Proof. unfold writeStats. by intros ->. Qed.

(** A report with a new date is recorded: the statistics in the file
    become those of the log with this game at its end. *)
Lemma updateStats_records σ log r :
  writable σ = true →
  summarises log (readStats σ).1 →
  Z.of_nat (length log) < MAX_EXACT →
  lastPlayedDate (readStats σ).1 ≠ r_date r →
  ∃ σ' stats,
    updateStats (r_won r) (r_attempts r) (r_date r) σ = (σ', Some stats)
    ∧ statsFile σ' = Some stats ∧ writable σ' = true
    ∧ summarises (log ++ [r]) stats.
Proof.
  intros Hw Hsum Hlen Hdate. unfold updateStats.
  destruct (readStats σ) as [st shared]. simpl in Hsum, Hdate.
  apply String.eqb_neq in Hdate. rewrite Hdate.
  destruct Hsum as [Hplayed Hwon Hstreak (p & Hp & Hmax) Hbound Hbars Hdist Hlast].
  pose proof (streak_le log) as Hsl.
  pose proof (count_le (λ r, Is_true (r_won r)) log) as Hwl.
  destruct r as [w a d]. simpl. destruct w.
  - (* a win *)
    destruct (bumpElement_five (guessDistribution st) (Z.min (a - 1) 4) Hbars)
      as [Hbars' Hdist']; [lia|].
    rewrite writeStats_writable by (by destruct shared).
    eexists _, _. split; [done|]. split; [done|]. split; [done|].
    rewrite !increment_exact by lia.
    split; simpl.
    + rewrite length_app. simpl. lia.
    + rewrite count_snoc. simpl. lia.
    + rewrite streak_snoc. simpl. lia.
    + destruct (Z.max_spec (maxStreak st) (currentStreak st + 1)) as [[_ ->]|[_ ->]].
      * exists (log ++ [{| r_won := true; r_attempts := a; r_date := d |}]).
        split; [done|]. rewrite streak_snoc. simpl. lia.
      * exists p. split; [by apply prefix_app_r|done].
    + intros q [Hq| ->]%prefix_snoc_cases.
      * specialize (Hbound q Hq). lia.
      * rewrite streak_snoc. simpl. lia.
    + done.
    + intros i Hi. rewrite (Hdist' i _ (Hdist i Hi)). do 2 f_equal.
      pose proof (count_le (λ r, Is_true (solvedIn i r)) log).
      rewrite count_snoc.
      pose proof (solvedIn_bucket i {| r_won := true; r_attempts := a; r_date := d |} Hi)
        as Hb. simpl in Hb.
      destruct (decide (Z.of_nat i = Z.min (a - 1) 4)) as [E|E].
      * rewrite decide_True by (apply Is_true_true, Hb; by rewrite E).
        rewrite increment_exact by lia. lia.
      * rewrite decide_False; [lia|].
        intros [_ ?]%Is_true_true%Hb. lia.
    + by rewrite last_snoc.
  - (* a loss *)
    rewrite writeStats_writable by done.
    eexists _, _. split; [done|]. split; [done|]. split; [done|].
    rewrite !increment_exact by lia.
    split; simpl.
    + rewrite length_app. simpl. lia.
    + rewrite count_snoc. simpl. lia.
    + by rewrite streak_snoc.
    + exists p. split; [by apply prefix_app_r|done].
    + intros q [Hq| ->]%prefix_snoc_cases.
      * by apply Hbound.
      * rewrite streak_snoc. simpl. lia.
    + done.
    + intros i Hi. rewrite (Hdist i Hi). do 3 f_equal.
      rewrite count_snoc. unfold solvedIn at 2. simpl. by rewrite Nat.add_0_r.
    + by rewrite last_snoc.
Qed.

(** A report that repeats the date recorded last changes nothing. *)
Lemma updateStats_same_date σ won attempts dateKey :
  lastPlayedDate (readStats σ).1 = dateKey →
  updateStats won attempts dateKey σ = (σ, Some (readStats σ).1).
Proof.
  intros H. unfold updateStats. destruct (readStats σ) as [st sh]. simpl in H.
  by rewrite (proj2 (String.eqb_eq _ _) H).
Qed.

Lemma updateAll_summarises reports : ∀ σ log,
  writable σ = true →
  summarises log (readStats σ).1 →
  Z.of_nat (length log + length reports) ≤ MAX_EXACT →
  summarises (log ++ recordedFrom (lastPlayedDate (readStats σ).1) reports)
    (readStats (updateAll reports σ)).1.
Proof.
  induction reports as [|r rest IH]; intros σ log Hw Hsum Hlen; simpl.
  - by rewrite app_nil_r.
  - simpl in Hlen.
    destruct (String.eqb_spec (lastPlayedDate (readStats σ).1) (r_date r)) as [E|E].
    + rewrite (updateStats_same_date _ _ _ _ E). simpl. apply IH; [done|done|lia].
    + destruct (updateStats_records σ log r Hw Hsum) as (σ' & st & -> & Hf & Hw' & Hsum');
        [lia|done|]. simpl.
      assert ((readStats σ').1 = st) as Hread by (unfold readStats; by rewrite Hf).
      assert (lastPlayedDate st = r_date r) as Hd.
      { pose proof (sum_last _ _ Hsum') as H. rewrite last_snoc in H. apply H. }
      specialize (IH σ' (log ++ [r]) Hw'). rewrite Hread, Hd, <- app_assoc in IH.
      apply IH; [done|]. rewrite length_app. simpl. lia.
Qed.

Lemma summarises_default : summarises [] (DEFAULT_STATS (freshStore true)).
Proof.
  split; simpl; try done.
  - by exists [].
  - by intros p ->%prefix_nil_inv.
  - intros i Hi. by do 5 (destruct i as [|i]; [done|]); lia.
Qed.

(** X12. The statistics are those of the games recorded.  From a start
    without a statistics file, and with a writable one, after any sequence
    of calls of [updateStats] (fewer than 2^53) [readStats] returns the
    summary of the calls that did not repeat the date recorded last: games
    played, games won, the current streak as the number of wins since the
    last loss (a skipped day does not end it), the best streak as the
    longest the current one has been, five bars that count the wins by
    attempts (the fifth for five or more, and a win reported with no
    attempt in none of them), and the date, outcome and attempts of the
    last game. *)
Theorem statistics_summarise_the_recorded_games reports :
  Z.of_nat (length reports) ≤ MAX_EXACT →
  summarises (recordedFrom "" reports)
    (readStats (updateAll reports (freshStore true))).1.
Proof.
  intros Hlen.
  apply (updateAll_summarises reports (freshStore true) []);
    [done|apply summarises_default|done].
Qed.

Lemma statistics_summarise_the_recorded_games_witness :
  recordedFrom ""
    [ {| r_won := true; r_attempts := 2; r_date := "2026-01-01" |};
      {| r_won := false; r_attempts := 5; r_date := "2026-01-01" |};
      {| r_won := true; r_attempts := 7; r_date := "2026-01-03" |} ]
  = [ {| r_won := true; r_attempts := 2; r_date := "2026-01-01" |};
      {| r_won := true; r_attempts := 7; r_date := "2026-01-03" |} ]
  ∧ summarises
      (recordedFrom ""
         [ {| r_won := true; r_attempts := 2; r_date := "2026-01-01" |};
           {| r_won := false; r_attempts := 5; r_date := "2026-01-01" |};
           {| r_won := true; r_attempts := 7; r_date := "2026-01-03" |} ])
      (readStats
         (updateAll
            [ {| r_won := true; r_attempts := 2; r_date := "2026-01-01" |};
              {| r_won := false; r_attempts := 5; r_date := "2026-01-01" |};
              {| r_won := true; r_attempts := 7; r_date := "2026-01-03" |} ]
            (freshStore true))).1.
Proof.
  split; [reflexivity|].
  apply (statistics_summarise_the_recorded_games
           [ {| r_won := true; r_attempts := 2; r_date := "2026-01-01" |};
             {| r_won := false; r_attempts := 5; r_date := "2026-01-01" |};
             {| r_won := true; r_attempts := 7; r_date := "2026-01-03" |} ]).
  vm_compute. discriminate.
Defined.

(** ** Statistics that cannot be saved *)

Lemma updateStats_unwritable σ attempts dateKey :
  statsFile σ = None → writable σ = false → dateKey ≠ "" →
  updateStats true attempts dateKey σ
  = ({| defaultDistribution :=
          bumpElement (defaultDistribution σ) (Z.min (attempts - 1) 4);
        statsFile := None; writable := false |}, None).
Proof.
  intros Hf Hw Hd. unfold updateStats, readStats. rewrite Hf.
  destruct dateKey as [|c d]; [done|]. simpl.
  unfold writeStats. simpl. by rewrite Hw.
Qed.

Lemma updateAll_unwritable attempts dateKey n : ∀ σ k,
  statsFile σ = None → writable σ = false → dateKey ≠ "" → 1 ≤ attempts →
  length (defaultDistribution σ) = 5%nat →
  (∀ i, (i < 5)%nat →
     defaultDistribution σ !! i
     = Some (Some (if decide (Z.of_nat i = Z.min (attempts - 1) 4)
                   then Z.of_nat k else 0))) →
  Z.of_nat (k + n) ≤ MAX_EXACT →
  let σ' :=
    updateAll
      (replicate n {| r_won := true; r_attempts := attempts; r_date := dateKey |}) σ in
  statsFile σ' = None ∧ writable σ' = false
  ∧ ∀ i, (i < 5)%nat →
      defaultDistribution σ' !! i
      = Some (Some (if decide (Z.of_nat i = Z.min (attempts - 1) 4)
                    then Z.of_nat (k + n) else 0)).
Proof.
  induction n as [|n IH]; intros σ k Hf Hw Hd Ha Hlen Hdist Hk; cbv zeta.
  - simpl. rewrite Nat.add_0_r. done.
  - simpl. rewrite (updateStats_unwritable σ attempts dateKey Hf Hw Hd). simpl.
    destruct (bumpElement_five (defaultDistribution σ) (Z.min (attempts - 1) 4) Hlen)
      as [Hlen' Hdist']; [lia|].
    replace (k + S n)%nat with (S k + n)%nat by lia.
    apply IH; [done|done|done|done|exact Hlen'| |lia]. simpl.
    intros i Hi. rewrite (Hdist' i _ (Hdist i Hi)). do 2 f_equal.
    destruct (decide _); [|done]. rewrite increment_exact by lia. lia.
Qed.

(** X13. Statistics that cannot be saved leak into the defaults.  When
    there is no statistics file and it cannot be written, every call of
    [updateStats] for a won game is rejected, yet each one counts the win in
    the array of [DEFAULT_STATS], which the copy it works on shares: after
    [n] such calls [readStats] returns no game played and no game won, and
    [n] wins in the bar of the attempts. *)
Theorem unsaved_wins_stay_in_the_default_distribution (n : nat) attempts dateKey :
  dateKey ≠ "" → 1 ≤ attempts → Z.of_nat n ≤ MAX_EXACT →
  let σ :=
    updateAll
      (replicate n {| r_won := true; r_attempts := attempts; r_date := dateKey |})
      (freshStore false) in
  (updateStats true attempts dateKey σ).2 = None
  ∧ statsFile σ = None
  ∧ gamesPlayed (readStats σ).1 = 0
  ∧ gamesWon (readStats σ).1 = 0
  ∧ lastPlayedDate (readStats σ).1 = ""
  ∧ guessDistribution (readStats σ).1 !! Z.to_nat (Z.min (attempts - 1) 4)
    = Some (Some (Z.of_nat n)).
Proof.
  intros Hd Ha Hn. cbv zeta.
  destruct (updateAll_unwritable attempts dateKey n (freshStore false) 0)
    as (Hf & Hw & Hdist); try done.
  { intros i Hi. do 5 (destruct i as [|i]; [by destruct (decide _)|]). lia. }
  set (σ := updateAll _ _) in *.
  split; [by rewrite (updateStats_unwritable σ attempts dateKey Hf Hw Hd)|].
  split; [done|]. unfold readStats. rewrite Hf. simpl.
  repeat (split; [done|]).
  rewrite Hdist by lia. rewrite decide_True by lia. done.
Qed.

Lemma unsaved_wins_stay_in_the_default_distribution_witness :
  let σ :=
    updateAll
      (replicate 3 {| r_won := true; r_attempts := 2; r_date := "2026-01-01" |})
      (freshStore false) in
  (updateStats true 2 "2026-01-01" σ).2 = None
  ∧ statsFile σ = None
  ∧ gamesPlayed (readStats σ).1 = 0
  ∧ gamesWon (readStats σ).1 = 0
  ∧ lastPlayedDate (readStats σ).1 = ""
  ∧ guessDistribution (readStats σ).1 !! Z.to_nat (Z.min (2 - 1) 4)
    = Some (Some (Z.of_nat 3)).
Proof.
  apply (unsaved_wins_stay_in_the_default_distribution 3 2 "2026-01-01");
    [discriminate|lia|vm_compute; discriminate].
Defined.

(** ** The address of the server *)

Lemma normalizeBaseUrl_slash u : normalizeBaseUrl (u +:+ "/") = u.
Proof. unfold normalizeBaseUrl. by rewrite lastChar_snoc, sliceInit_snoc. Qed.

(** X14. The address of the server may be configured with or without a
    slash at its end: the requests go to the same address.  One slash only
    is removed, so an address that ends with two keeps one. *)
Theorem base_url_with_or_without_slash u path :
  Js.lastChar u ≠ "/" →
  requestUrl (normalizeBaseUrl u) path = u +:+ path
  ∧ requestUrl (normalizeBaseUrl (u +:+ "/")) path = u +:+ path
  ∧ normalizeBaseUrl (normalizeBaseUrl u) = normalizeBaseUrl u
  ∧ normalizeBaseUrl ((u +:+ "/") +:+ "/") = u +:+ "/"
  ∧ normalizeBaseUrl (normalizeBaseUrl ((u +:+ "/") +:+ "/")) = u.
Proof.
  intros Hlast.
  assert (normalizeBaseUrl u = u) as Hu.
  { unfold normalizeBaseUrl. apply String.eqb_neq in Hlast. by rewrite Hlast. }
  by rewrite !normalizeBaseUrl_slash, !Hu.
Qed.

Lemma base_url_with_or_without_slash_witness :
  requestUrl (normalizeBaseUrl "http://h") "/api" = "http://h" +:+ "/api"
  ∧ requestUrl (normalizeBaseUrl ("http://h" +:+ "/")) "/api" = "http://h" +:+ "/api"
  ∧ normalizeBaseUrl (normalizeBaseUrl "http://h") = normalizeBaseUrl "http://h"
  ∧ normalizeBaseUrl (("http://h" +:+ "/") +:+ "/") = "http://h" +:+ "/"
  ∧ normalizeBaseUrl (normalizeBaseUrl (("http://h" +:+ "/") +:+ "/")) = "http://h".
Proof.
  apply (base_url_with_or_without_slash "http://h" "/api"). vm_compute. discriminate.
Defined.
